(** * moondream-node-jimp: the client of [src/moondream.ts]

    A shallow embedding of the class [vl] of [src/moondream.ts] and the
    properties of its streaming decoder, its constructor, its image
    normaliser and its task dispatchers.

    The file has three layers:
    - the JavaScript run-time notions the source relies on (strings of
      UTF-16 code units, [Buffer.prototype.toString], [JSON.parse], the
      [in] operator, property access, truthiness, base64);
    - the methods of [vl], one definition per method, statement by
      statement;
    - the theorems. *)

From Stdlib Require Import NArith ZArith List Bool Lia.
From Stdlib.Strings Require Import String Ascii Byte.
Import ListNotations.

Set Implicit Arguments.
Set Warnings "-register-all".
Local Open Scope list_scope.

(* ================================================================== *)
(** ** JavaScript strings *)
(* ================================================================== *)

(** A JavaScript string is a sequence of UTF-16 code units. *)
Definition jsstring := list N.

(** A [Buffer] is a sequence of bytes. *)
Definition Buffer := list byte.

Module JS.

(** The code units of an ASCII literal of the source. *)
Definition lit (s : string) : jsstring :=
  map N_of_ascii (list_ascii_of_string s).

(** Same, for texts that hold double quotes: the literal is written
    with apostrophes and every apostrophe (0x27) stands for a double
    quote (0x22). *)
Definition dq (s : string) : jsstring :=
  map (fun c => if N.eqb c 39 then 34%N else c) (lit s).

(** The line feed, ['\n']. *)
Definition LF : N := 10.

Fixpoint eqb (s t : jsstring) : bool :=
  match s, t with
  | [], [] => true
  | c :: s', d :: t' => N.eqb c d && eqb s' t'
  | _, _ => false
  end.

(** [s.startsWith(p)] *)
Fixpoint startsWith (s p : jsstring) {struct p} : bool :=
  match p, s with
  | [], _ => true
  | d :: p', c :: s' => N.eqb c d && startsWith s' p'
  | _ :: _, [] => false
  end.

(** [s.slice(n)] for a non-negative [n]. *)
Definition slice (n : nat) (s : jsstring) : jsstring := skipn n s.

(** [s.split(sep)] for a separator of one code unit: the segments
    between the separators, always at least one. *)
Fixpoint split (sep : N) (s : jsstring) : list jsstring :=
  match s with
  | [] => [[]]
  | c :: s' =>
      if N.eqb c sep then [] :: split sep s'
      else match split sep s' with
           | [] => [[c]]
           | l :: ls => (c :: l) :: ls
           end
  end.

(** [a.pop()]: the last element ([None] stands for [undefined], on an
    empty array) and the array that remains. *)
Definition pop (a : list jsstring) : option jsstring * list jsstring :=
  match a with
  | [] => (None, [])
  | _ :: _ => (Some (last a []), removelast a)
  end.

(** [x || d] for [x] a string or [undefined]: [d] unless [x] is a
    non-empty string. *)
Definition or_default (x : option jsstring) (d : jsstring) : jsstring :=
  match x with
  | Some (c :: s) => c :: s
  | Some [] => d
  | None => d
  end.

(** Truthiness of a string: non-empty. *)
Definition nonempty (s : jsstring) : bool :=
  match s with [] => false | _ :: _ => true end.

End JS.

(* ================================================================== *)
(** ** [Buffer.prototype.toString()] : UTF-8 decoding *)
(* ================================================================== *)

(** [chunk.toString()] decodes the bytes of ONE buffer as UTF-8. Bytes
    that are not part of a well-formed sequence, among them a sequence
    cut short by the end of the buffer, become U+FFFD; no byte order mark
    is removed. The decoder below is the UTF-8 decoder of the WHATWG
    Encoding standard, which replaces each maximal ill-formed
    subsequence by one U+FFFD. *)
Module Utf8.

Definition REPLACEMENT : N := 0xFFFD.

(** What the decoder holds between two bytes: nothing, or the start of
    a multi-byte sequence with the number of continuation bytes still
    expected and the range allowed for the next one. *)
Inductive Pending :=
| Idle
| Partial (code_point : N) (remaining : nat) (lower upper : N).

Definition between (lo x hi : N) : bool := N.leb lo x && N.leb x hi.

(** A byte met outside a sequence. *)
Definition lead (b : N) : list N * Pending :=
  if N.leb b 0x7F then ([b], Idle)
  else if between 0xC2 b 0xDF then ([], Partial (N.land b 0x1F) 1 0x80 0xBF)
  else if between 0xE0 b 0xEF then
    ([], Partial (N.land b 0xF) 2
                 (if N.eqb b 0xE0 then 0xA0 else 0x80)
                 (if N.eqb b 0xED then 0x9F else 0xBF))
  else if between 0xF0 b 0xF4 then
    ([], Partial (N.land b 0x7) 3
                 (if N.eqb b 0xF0 then 0x90 else 0x80)
                 (if N.eqb b 0xF4 then 0x8F else 0xBF))
  else ([REPLACEMENT], Idle).

(** One byte: the code points it completes and the new state. A byte
    that cannot continue the sequence ends it with U+FFFD and is then
    read again as a lead byte. *)
Definition step (st : Pending) (b : N) : list N * Pending :=
  match st with
  | Idle => lead b
  | Partial cp remaining lo hi =>
      if between lo b hi then
        let cp' := N.lor (N.shiftl cp 6) (N.land b 0x3F) in
        match remaining with
        | S (S r) => ([], Partial cp' (S r) 0x80 0xBF)
        | _ => ([cp'], Idle)
        end
      else
        let (out, st') := lead b in (REPLACEMENT :: out, st')
  end.

(** The code points of a byte sequence; a sequence still open at the
    end of the input is one U+FFFD. *)
Fixpoint decode_from (st : Pending) (bytes : list N) : list N :=
  match bytes with
  | [] => match st with Idle => [] | Partial _ _ _ _ => [REPLACEMENT] end
  | b :: bs => let (out, st') := step st b in out ++ decode_from st' bs
  end.

(** What the decoder holds after a byte sequence. *)
Fixpoint state_after (st : Pending) (bytes : list N) : Pending :=
  match bytes with
  | [] => st
  | b :: bs => state_after (snd (step st b)) bs
  end.

(** A buffer that ends on a character boundary: no sequence is open
    at its end. *)
Definition ends_on_boundary (b : Buffer) : Prop :=
  state_after Idle (map Byte.to_N b) = Idle.

(** The UTF-16 code units of a code point. *)
Definition units (cp : N) : jsstring :=
  if N.ltb cp 0x10000 then [cp]
  else let c := (cp - 0x10000)%N in
       [(0xD800 + N.shiftr c 10)%N; (0xDC00 + N.land c 0x3FF)%N].

Definition decode (b : Buffer) : jsstring :=
  flat_map units (decode_from Idle (map Byte.to_N b)).

(** The UTF-8 bytes of an ASCII literal. *)
Definition bytes (s : string) : Buffer :=
  map byte_of_ascii (list_ascii_of_string s).

Definition bytes_dq (s : string) : Buffer :=
  map (fun b => if Byte.eqb b x27 then x22 else b) (bytes s).

End Utf8.

(** [chunk.toString()] *)
Definition toString (chunk : Buffer) : jsstring := Utf8.decode chunk.

(* ================================================================== *)
(** ** JavaScript values, [JSON.parse] *)
(* ================================================================== *)

(** The values the program handles: what [JSON.parse] builds, and
    [undefined], which reading an absent property gives. A number is
    kept as the decimal the text denotes, [(-1)^negative * mantissa *
    10^exponent]; an object is kept as its members in the order of the
    text, a later member of the same name overriding an earlier one. *)
Inductive JSValue :=
| JUndefined
| JNull
| JBool (b : bool)
| JNumber (negative : bool) (mantissa : N) (exponent : Z)
| JString (s : jsstring)
| JArray (elements : list JSValue)
| JObject (members : list (jsstring * JSValue)).

(** The native errors the program can meet. It only ever reads their
    [message], whose text is the engine's or the library's; the model
    keeps what the error is about. *)
Inductive Cause :=
| SyntaxError (text : jsstring)          (* thrown by [JSON.parse(text)] *)
| InTypeError (key : string) (v : JSValue)   (* [key in v], [v] a primitive *)
| ReadTypeError (key : string) (v : JSValue) (* [v.key], [v] null or undefined *)
| External (description : string).       (* the stream, the network, the codec *)

(** The [message] of an error: that of a native error, a literal, or a
    template literal [`${prefix}${inner}`]. *)
Inductive Message :=
| Native (c : Cause)
| Literal (s : string)
| Status (prefix : string) (statusCode : Z)
| Template (prefix : string) (inner : Message).

Module JSON.

Inductive Token :=
| TLBrace | TRBrace | TLBracket | TRBracket | TColon | TComma
| TString (s : jsstring)
| TAtom (v : JSValue).

(* ---------------- words: numbers and the three literals ---------- *)

Definition is_digit (c : N) : bool := N.leb 48 c && N.leb c 57.
Definition is_letter (c : N) : bool :=
  (N.leb 65 c && N.leb c 90) || (N.leb 97 c && N.leb c 122).
(** The code units a number or a literal name is made of. *)
Definition is_word (c : N) : bool :=
  is_digit c || is_letter c || N.eqb c 43 || N.eqb c 45 || N.eqb c 46.
Definition is_space (c : N) : bool :=
  N.eqb c 32 || N.eqb c 9 || N.eqb c 10 || N.eqb c 13.

Fixpoint span (p : N -> bool) (s : jsstring) : jsstring * jsstring :=
  match s with
  | c :: s' => if p c then let (a, b) := span p s' in (c :: a, b)
               else ([], s)
  | [] => ([], [])
  end.

Definition digits_value (ds : jsstring) : N :=
  fold_left (fun acc d => (acc * 10 + (d - 48))%N) ds 0%N.

(** [int]: a single zero, or digits that do not start with zero. *)
Definition int_ok (ds : jsstring) : bool :=
  match ds with
  | [] => false
  | [_] => true
  | d :: _ :: _ => negb (N.eqb d 48)
  end.

(** The exponent part: nothing, or [e]/[E], an optional sign and at
    least one digit, up to the end of the word. *)
Definition exponent_of (w : jsstring) : option Z :=
  match w with
  | [] => Some 0%Z
  | c :: r =>
      if N.eqb c 101 || N.eqb c 69 then
        let (neg, r') :=
          match r with
          | s :: r'' => if N.eqb s 45 then (true, r'')
                        else if N.eqb s 43 then (false, r'')
                        else (false, r)
          | [] => (false, r)
          end in
        let (ds, rest) := span is_digit r' in
        match ds, rest with
        | _ :: _, [] =>
            let e := Z.of_N (digits_value ds) in
            Some (if neg then (- e)%Z else e)
        | _, _ => None
        end
      else None
  end.

(** number = [ minus ] int [ frac ] [ exp ] *)
Definition number_of (w : jsstring) : option JSValue :=
  let (neg, w1) :=
    match w with
    | c :: r => if N.eqb c 45 then (true, r) else (false, w)
    | [] => (false, w)
    end in
  let (ints, w2) := span is_digit w1 in
  if int_ok ints then
    let '(fracs, frac_ok, w3) :=
      match w2 with
      | c :: r =>
          if N.eqb c 46 then
            let (fs, r') := span is_digit r in (fs, JS.nonempty fs, r')
          else ([], true, w2)
      | [] => ([], true, w2)
      end in
    if frac_ok then
      match exponent_of w3 with
      | Some e =>
          Some (JNumber neg (digits_value (ints ++ fracs))
                        (e - Z.of_nat (List.length fracs)))
      | None => None
      end
    else None
  else None.

Definition atom_of (w : jsstring) : option JSValue :=
  if JS.eqb w (JS.lit "true") then Some (JBool true)
  else if JS.eqb w (JS.lit "false") then Some (JBool false)
  else if JS.eqb w (JS.lit "null") then Some JNull
  else number_of w.

(* ---------------- the scanner ----------------------------------- *)

Definition hex_value (c : N) : option N :=
  if is_digit c then Some (c - 48)%N
  else if N.leb 97 c && N.leb c 102 then Some (c - 87)%N
  else if N.leb 65 c && N.leb c 70 then Some (c - 55)%N
  else None.

(** Where the scanner is: between tokens, inside a word, inside a
    string (what was read of it is kept reversed), after a backslash,
    or inside the four hexadecimal digits of a [\u] escape. *)
Inductive Scan :=
| Between
| InWord (rev_word : jsstring)
| InString (rev_chars : jsstring)
| Escape (rev_chars : jsstring)
| Unicode (rev_chars : jsstring) (seen : nat) (value : N).

Definition punctuation (c : N) : option Token :=
  if N.eqb c 123 then Some TLBrace
  else if N.eqb c 125 then Some TRBrace
  else if N.eqb c 91 then Some TLBracket
  else if N.eqb c 93 then Some TRBracket
  else if N.eqb c 58 then Some TColon
  else if N.eqb c 44 then Some TComma
  else None.

(** A code unit met between two tokens: the token it makes alone, if
    any, and the new state; [None] when no token can start with it. *)
Definition scan_between (c : N) : option (list Token * Scan) :=
  if is_space c then Some ([], Between)
  else match punctuation c with
       | Some t => Some ([t], Between)
       | None =>
           if N.eqb c 34 then Some ([], InString [])
           else if is_word c then Some ([], InWord [c])
           else None
       end.

(** The code unit a one-letter escape stands for. *)
Definition escaped (c : N) : option N :=
  if N.eqb c 34 then Some 34%N            (* quotation mark *)
  else if N.eqb c 92 then Some 92%N       (* reverse solidus *)
  else if N.eqb c 47 then Some 47%N       (* solidus *)
  else if N.eqb c 98 then Some 8%N        (* b: backspace *)
  else if N.eqb c 102 then Some 12%N      (* f: form feed *)
  else if N.eqb c 110 then Some 10%N      (* n: line feed *)
  else if N.eqb c 114 then Some 13%N      (* r: carriage return *)
  else if N.eqb c 116 then Some 9%N       (* t: tab *)
  else None.

Definition scan_step (st : Scan) (c : N) : option (list Token * Scan) :=
  match st with
  | Between => scan_between c
  | InWord w =>
      if is_word c then Some ([], InWord (c :: w))
      else match atom_of (rev w), scan_between c with
           | Some v, Some (ts, st') => Some (TAtom v :: ts, st')
           | _, _ => None
           end
  | InString s =>
      if N.eqb c 34 then Some ([TString (rev s)], Between)
      else if N.eqb c 92 then Some ([], Escape s)
      else if N.ltb c 32 then None
      else Some ([], InString (c :: s))
  | Escape s =>
      if N.eqb c 117 then Some ([], Unicode s 0 0%N)
      else match escaped c with
           | Some e => Some ([], InString (e :: s))
           | None => None
           end
  | Unicode s seen v =>
      match hex_value c with
      | Some h =>
          let v' := (v * 16 + h)%N in
          match seen with
          | 3%nat => Some ([], InString (v' :: s))
          | _ => Some ([], Unicode s (S seen) v')
          end
      | None => None
      end
  end.

Fixpoint scan (st : Scan) (s : jsstring) : option (list Token) :=
  match s with
  | [] =>
      match st with
      | Between => Some []
      | InWord w =>
          match atom_of (rev w) with
          | Some v => Some [TAtom v]
          | None => None
          end
      | _ => None
      end
  | c :: s' =>
      match scan_step st c with
      | Some (ts, st') =>
          match scan st' s' with
          | Some ts' => Some (ts ++ ts')
          | None => None
          end
      | None => None
      end
  end.

(* ---------------- the grammar ----------------------------------- *)

(** An open container: an array with the elements read so far, an
    object with the members read so far, or an object whose next
    member has its name and waits for its value. Elements and members
    are kept reversed. *)
Inductive Frame :=
| FArray (rev_elements : list JSValue)
| FObject (rev_members : list (jsstring * JSValue))
| FMember (rev_members : list (jsstring * JSValue)) (name : jsstring).

(** What may come next. [may_close] holds right after an opening
    bracket or brace, where the container may close empty. *)
Inductive Expect :=
| WantValue (may_close : bool)
| WantName (may_close : bool)
| WantColon (name : jsstring)
| WantSeparator
| Finished (v : JSValue).

(** A value is complete: it is the result, or it goes into the
    innermost open container. *)
Definition place (v : JSValue) (stack : list Frame)
  : option (list Frame * Expect) :=
  match stack with
  | [] => Some ([], Finished v)
  | FArray es :: st => Some (FArray (v :: es) :: st, WantSeparator)
  | FMember ms k :: st => Some (FObject ((k, v) :: ms) :: st, WantSeparator)
  | FObject _ :: _ => None
  end.

Definition close_array (stack : list Frame) :=
  match stack with
  | FArray es :: st => place (JArray (rev es)) st
  | _ => None
  end.

Definition close_object (stack : list Frame) :=
  match stack with
  | FObject ms :: st => place (JObject (rev ms)) st
  | _ => None
  end.

Definition parse_step (stack : list Frame) (e : Expect) (t : Token)
  : option (list Frame * Expect) :=
  match e, t with
  | WantValue _, TString s => place (JString s) stack
  | WantValue _, TAtom v => place v stack
  | WantValue _, TLBracket => Some (FArray [] :: stack, WantValue true)
  | WantValue _, TLBrace => Some (FObject [] :: stack, WantName true)
  | WantValue true, TRBracket => close_array stack
  | WantName _, TString k => Some (stack, WantColon k)
  | WantName true, TRBrace => close_object stack
  | WantColon k, TColon =>
      match stack with
      | FObject ms :: st => Some (FMember ms k :: st, WantValue false)
      | _ => None
      end
  | WantSeparator, TComma =>
      match stack with
      | FArray _ :: _ => Some (stack, WantValue false)
      | FObject _ :: _ => Some (stack, WantName false)
      | _ => None
      end
  | WantSeparator, TRBracket => close_array stack
  | WantSeparator, TRBrace => close_object stack
  | _, _ => None
  end.

Fixpoint parse_tokens (stack : list Frame) (e : Expect) (ts : list Token)
  : option JSValue :=
  match ts with
  | [] => match e with Finished v => Some v | _ => None end
  | t :: ts' =>
      match parse_step stack e t with
      | Some (stack', e') => parse_tokens stack' e' ts'
      | None => None
      end
  end.

(** [JSON.parse(text)]: the value, or the [SyntaxError] it throws. *)
Definition parse (text : jsstring) : Cause + JSValue :=
  match scan Between text with
  | Some ts =>
      match parse_tokens [] (WantValue false) ts with
      | Some v => inr v
      | None => inl (SyntaxError text)
      end
  | None => inl (SyntaxError text)
  end.

End JSON.

(* ================================================================== *)
(** ** Operators on values *)
(* ================================================================== *)

(** The member called [key] of an object literal: the last one wins. *)
Fixpoint member (key : jsstring) (ms : list (jsstring * JSValue))
  : option JSValue :=
  match ms with
  | [] => None
  | (k, v) :: ms' =>
      match member key ms' with
      | Some v' => Some v'
      | None => if JS.eqb k key then Some v else None
      end
  end.

(** [key in v]. The keys the program tests and reads ([chunk],
    [completed], [answer], [reasoning], [caption], [objects], [points])
    are no array index and are defined by no built-in prototype, so a
    parsed object has them exactly when its text has a member of that
    name, and a parsed array never has them. On a primitive, [in]
    throws a [TypeError]. *)
Definition has (key : string) (v : JSValue) : Cause + bool :=
  match v with
  | JObject ms =>
      inr (match member (JS.lit key) ms with Some _ => true | None => false end)
  | JArray _ => inr false
  | _ => inl (InTypeError key v)
  end.

(** [v.key], for the same keys: a [TypeError] on [null] and
    [undefined], the member of an object, [undefined] elsewhere. *)
Definition get (key : string) (v : JSValue) : Cause + JSValue :=
  match v with
  | JUndefined | JNull => inl (ReadTypeError key v)
  | JObject ms =>
      inr (match member (JS.lit key) ms with Some x => x | None => JUndefined end)
  | _ => inr JUndefined
  end.

(** A decimal [m * 10^e] that the nearest double rounds to zero: zero
    itself, or at most half the least positive double, [2^-1075] (the
    tie goes to the even neighbour, which is zero). *)
Definition rounds_to_zero (m : N) (e : Z) : bool :=
  N.eqb m 0
  || (Z.ltb e 0 && Z.leb (Z.of_N m * 2 ^ 1075) (10 ^ (- e))).

(** [ToBoolean]: what [if (v)] tests. *)
Definition truthy (v : JSValue) : bool :=
  match v with
  | JUndefined | JNull => false
  | JBool b => b
  | JNumber _ m e => negb (rounds_to_zero m e)
  | JString s => JS.nonempty s
  | JArray _ | JObject _ => true
  end.

(* ================================================================== *)
(** ** [Buffer.prototype.toString('base64')] *)
(* ================================================================== *)

Module Base64.

Definition digit (n : N) : N :=
  if N.ltb n 26 then (65 + n)%N
  else if N.ltb n 52 then (97 + (n - 26))%N
  else if N.ltb n 62 then (48 + (n - 52))%N
  else if N.eqb n 62 then 43%N
  else 47%N.

Definition pad : N := 61.

Definition sextet (n : N) (shift : N) : N :=
  digit (N.land (N.shiftr n shift) 63).

Fixpoint encode_bytes (bs : list N) : jsstring :=
  match bs with
  | [] => []
  | [a] =>
      let n := N.shiftl a 16 in
      [sextet n 18; sextet n 12; pad; pad]
  | [a; b] =>
      let n := N.lor (N.shiftl a 16) (N.shiftl b 8) in
      [sextet n 18; sextet n 12; sextet n 6; pad]
  | a :: b :: c :: rest =>
      let n := N.lor (N.lor (N.shiftl a 16) (N.shiftl b 8)) c in
      sextet n 18 :: sextet n 12 :: sextet n 6 :: sextet n 0
        :: encode_bytes rest
  end.

Definition encode (b : Buffer) : jsstring :=
  encode_bytes (map Byte.to_N b).

End Base64.

(* ================================================================== *)
(** ** Promises, generators and the outside world *)
(* ================================================================== *)

(** How a generator stops: its body returns (or runs off its end), or
    throws. *)
Inductive Outcome :=
| Completed
| Failed (m : Message).

(** What a consumer that reads an [AsyncGenerator] to its end observes:
    the values yielded, in order, and how the generator stopped. The
    body of a generator runs only as it is consumed; a consumer that
    stops early observes a prefix of [yielded]. *)
Record Trace := { yielded : list JSValue; outcome : Outcome }.

(** What [for await (const chunk of response)] delivers: the chunks,
    then the end of the stream or the error the stream fails with. *)
Record Readable := { chunks : list Buffer; failure : option Message }.

(** [http.IncomingMessage] *)
Record IncomingMessage := { statusCode : Z; readable : Readable }.

(** How an awaited promise turns out. [Pending] is a promise that is
    never settled. *)
Inductive Promise (A : Type) :=
| Resolved (a : A)
| Rejected (m : Message)
| Pending.
Arguments Rejected {A} m.
Arguments Pending {A}.

(** Modelled from the spec: the types of [./types], which is not among
    the sources. [Base64EncodedImage] is the EncodedImage of the spec,
    a value "carrying a URL-style reference field"; the requests and
    outputs have the fields of the spec's task request and response
    shapes ("caption{image, length, stream?, variant?}", "query{question,
    image?, reasoning?, stream?, variant?}", "detect{image, object,
    variant?}", "point{image, object, variant?}"; "caption{caption:
    string|FragmentSequence}", "query{answer: string|FragmentSequence,
    reasoning?}", "detect{objects: list}", "point{points: list}"). An
    optional field is an [option]. *)
Record Base64EncodedImage := { imageUrl : jsstring }.

(** [Buffer | Base64EncodedImage] *)
Inductive ImageInput :=
| Raw (b : Buffer)
| Encoded (e : Base64EncodedImage).

Record CaptionRequest := {
  caption_image : ImageInput;
  caption_length : JSValue;
  caption_stream : option bool;
  caption_variant : option jsstring }.

Record QueryRequest := {
  query_question : jsstring;
  query_image : option ImageInput;
  query_reasoning : option bool;
  query_stream : option bool;
  query_variant : option jsstring }.

Record DetectRequest := {
  detect_image : ImageInput;
  detect_object : jsstring;
  detect_variant : option jsstring }.

Record PointRequest := {
  point_image : ImageInput;
  point_object : jsstring;
  point_variant : option jsstring }.

(** [string | AsyncGenerator<string>]: the value read from the parsed
    response, or the generator over the live response. *)
Inductive Text :=
| Plain (v : JSValue)
| Streamed (g : Trace).

(** The field [caption] of [CaptionOutput] is [caption_] here, the name
    [caption] being that of the method. *)
Record CaptionOutput := { caption_ : Text }.
Record QueryOutput := { answer : Text; reasoning : option JSValue }.
Record DetectOutput := { objects : JSValue }.
Record PointOutput := { points : JSValue }.

(** What [makeRequest] hands to [client.request]: the URL, the
    credential of the [X-Moondream-Auth] header and the body before
    [JSON.stringify]. The other headers are fixed or computed from the
    body. *)
Record Request := { url : jsstring; auth : jsstring; payload : JSValue }.

(** What the program does to the outside world, in order. *)
Inductive Event :=
| JimpRead (b : Buffer)
| JimpQuality (q : Z)
| JimpGetBuffer (mime : string)
| Post (r : Request).

(** An asynchronous computation: from the events so far to how it turns
    out and the events then. *)
Definition Async (A : Type) : Type := list Event -> Promise A * list Event.

Definition resolve {A} (a : A) : Async A := fun log => (Resolved a, log).
Definition reject {A} (m : Message) : Async A := fun log => (Rejected m, log).
Definition emit (e : Event) : Async unit := fun log => (Resolved tt, log ++ [e]).

(** [await]: the rest runs on the value of a resolved promise; a
    rejection is thrown on, and nothing runs after a promise that never
    settles. *)
Definition await {A B} (c : Async A) (k : A -> Async B) : Async B :=
  fun log =>
    match c log with
    | (Resolved a, log') => k a log'
    | (Rejected m, log') => (Rejected m, log')
    | (Pending, log') => (Pending, log')
    end.

(** [try { c } catch (error) { throw new Error(h(error.message)) }] *)
Definition try_catch {A} (c : Async A) (h : Message -> Message) : Async A :=
  fun log =>
    match c log with
    | (Rejected m, log') => (Rejected (h m), log')
    | r => r
    end.

(** The result of a synchronous call that may throw. *)
Definition call {A} (r : Message + A) : Async A :=
  match r with
  | inl m => reject m
  | inr a => resolve a
  end.

Notation "'let*' x ':=' c 'in' k" := (await c (fun x => k))
  (at level 10, x pattern, c at level 100, k at level 200).
Notation "c ';;' k" := (await c (fun _ => k))
  (at level 100, k at level 200, right associativity).

(** The image library, [jimp], as the program uses it: [Jimp.read],
    the dimensions of [image.bitmap] ([None] when [bitmap] or the
    dimension is [undefined]), [image.quality(q)] and
    [image.getBufferAsync(mime)]. What fails gives the [message] of the
    error it throws. *)
Record Codec (Image : Type) := {
  jimp_read : Buffer -> Message + Image;
  bitmap_width : Image -> option Z;
  bitmap_height : Image -> option Z;
  jimp_quality : Z -> Image -> Message + Image;
  jimp_getBuffer : string -> Image -> Message + Buffer }.

(** The transport, [http]/[https]: a request gets a response, or the
    error of the [error] event of the request. *)
Definition Network := Request -> Message + IncomingMessage.

(* ================================================================== *)
(** ** The class [vl] *)
(* ================================================================== *)

Record MoondreamVLConfig := {
  config_apiKey : option jsstring;
  config_endpoint : option jsstring }.

Definition DEFAULT_ENDPOINT : jsstring := JS.lit "https://api.moondream.ai/v1".

Record vl := { apiKey : jsstring; endpoint : jsstring }.

(** [new vl(config)]: the client, or the [message] of the error thrown. *)
Definition constructor (config : MoondreamVLConfig) : Message + vl :=
  let apiKey := JS.or_default (config_apiKey config) [] in
  let endpoint := JS.or_default (config_endpoint config) DEFAULT_ENDPOINT in
  if JS.eqb apiKey [] && JS.eqb endpoint DEFAULT_ENDPOINT then
    inl (Literal "An apiKey is required for cloud inference. ")
  else inr {| apiKey := apiKey; endpoint := endpoint |}.

(* ------------------------------------------------------------------ *)
(** *** [streamResponse] *)

(** How the body of a loop leaves: on to the next iteration, out of the
    generator by [return], or out by a thrown error. *)
Inductive Control :=
| Next
| Return
| Throw (m : Message).

Definition PREFIX : jsstring := JS.lit "data: ".

(** The [catch] around [JSON.parse], the [in] test and the [yield]. *)
Definition parse_failure (c : Cause) : Message :=
  Template "Failed to parse JSON response from server: " (Native c).

(** The [catch] around the whole body. *)
Definition stream_failure (m : Message) : Message :=
  Template "Failed to stream response: " m.

(** [data.completed], for [data] an array or an object. *)
Definition completed (data : JSValue) : JSValue :=
  match get "completed" data with
  | inr v => v
  | inl _ => JUndefined
  end.

(** [data.chunk], likewise. *)
Definition chunk_of (data : JSValue) : JSValue :=
  match get "chunk" data with
  | inr v => v
  | inl _ => JUndefined
  end.

(** One line of a chunk (the body of the loop over [lines] inside
    [for await]): the values it yields and how it leaves. *)
Definition on_line (line : jsstring) : list JSValue * Control :=
  if JS.startsWith line PREFIX then
    match JSON.parse (JS.slice 6 line) with
    | inl c => ([], Throw (parse_failure c))
    | inr data =>
        match has "chunk" data with
        | inl c => ([], Throw (parse_failure c))
        | inr present =>
            let out := if present then [chunk_of data] else [] in
            if truthy (completed data) then (out, Return) else (out, Next)
        end
    end
  else ([], Next).

(** One line of what the buffer holds when the stream has ended (the
    body of the second loop over [lines]): no test of [completed]. *)
Definition on_residual_line (line : jsstring) : list JSValue * Control :=
  if JS.startsWith line PREFIX then
    match JSON.parse (JS.slice 6 line) with
    | inl c => ([], Throw (parse_failure c))
    | inr data =>
        match has "chunk" data with
        | inl c => ([], Throw (parse_failure c))
        | inr present => (if present then [chunk_of data] else [], Next)
        end
    end
  else ([], Next).

(** [for (const line of lines) body] *)
Fixpoint for_lines (body : jsstring -> list JSValue * Control)
  (lines : list jsstring) : list JSValue * Control :=
  match lines with
  | [] => ([], Next)
  | line :: rest =>
      match body line with
      | (out, Next) =>
          let (out', c) := for_lines body rest in (out ++ out', c)
      | (out, c) => (out, c)
      end
  end.

(** [for await (const chunk of response)], from the chunk at hand on:
    the values yielded, how the loop leaves and the buffer then. *)
Fixpoint for_chunks (buffer : jsstring) (cs : list Buffer)
  : list JSValue * Control * jsstring :=
  match cs with
  | [] => ([], Next, buffer)
  | chunk :: rest =>
      let buffer := buffer ++ toString chunk in
      let lines := JS.split JS.LF buffer in
      let (popped, lines) := JS.pop lines in
      let buffer := JS.or_default popped [] in
      match for_lines on_line lines with
      | (out, Next) =>
          let '(out', c, buffer') := for_chunks buffer rest in
          (out ++ out', c, buffer')
      | (out, c) => (out, c, buffer)
      end
  end.

(** [this.streamResponse(response)], consumed to its end. *)
Definition streamResponse (response : Readable) : Trace :=
  match for_chunks [] (chunks response) with
  | (out, Return, _) => {| yielded := out; outcome := Completed |}
  | (out, Throw m, _) =>
      {| yielded := out; outcome := Failed (stream_failure m) |}
  | (out, Next, buffer) =>
      match failure response with
      | Some m => {| yielded := out; outcome := Failed (stream_failure m) |}
      | None =>
          if JS.nonempty buffer then
            match for_lines on_residual_line (JS.split JS.LF buffer) with
            | (out', Throw m) =>
                {| yielded := out ++ out';
                   outcome := Failed (stream_failure m) |}
            | (out', _) => {| yielded := out ++ out'; outcome := Completed |}
            end
          else {| yielded := out; outcome := Completed |}
      end
  end.

(* ------------------------------------------------------------------ *)
(** *** The methods that reach the outside world *)

Section Client.

Variable Image : Type.
Variable jimp : Codec Image.
(** [new URL(text)]: [None], or the [message] of the [TypeError]. *)
Variable new_URL : jsstring -> option Message.
Variable network : Network.

(** [!n] for a dimension: [undefined] and zero are falsy. *)
Definition missing (n : option Z) : bool :=
  match n with
  | None => true
  | Some z => Z.eqb z 0
  end.

Definition encodeImage (image : ImageInput) : Async Base64EncodedImage :=
  match image with
  | Encoded e => resolve e
  | Raw buffer =>
      try_catch
        (let* jimpImage :=
           (emit (JimpRead buffer);; call (jimp_read jimp buffer)) in
         let width := bitmap_width jimp jimpImage in
         let height := bitmap_height jimp jimpImage in
         if missing width || missing height then
           reject (Literal "Unable to get image dimensions")
         else
           let* jimpImage :=
             (emit (JimpQuality 95);; call (jimp_quality jimp 95 jimpImage)) in
           let* buffer :=
             (emit (JimpGetBuffer "image/jpeg");;
              call (jimp_getBuffer jimp "image/jpeg" jimpImage)) in
           let base64Image := Base64.encode buffer in
           resolve {| imageUrl :=
                        JS.lit "data:image/jpeg;base64," ++ base64Image |})
        (fun m => Template "Failed to convert image to JPEG: " m)
  end.

(** What [makeRequest] resolves with: the response itself when
    [stream] is set, the parsed body otherwise. *)
Definition ResponseOf (stream : bool) : Type :=
  if stream then IncomingMessage else JSValue.

(** The body of a response read to its [end] event: [data += chunk]
    on every chunk. *)
Definition collect (cs : list Buffer) : jsstring :=
  fold_left (fun data chunk => data ++ toString chunk) cs [].

Definition makeRequest (self : vl) (path : jsstring) (body : JSValue)
  (stream : bool) : Async (ResponseOf stream) :=
  match new_URL (endpoint self ++ path) with
  | Some m => reject m
  | None =>
      let request :=
        {| url := endpoint self ++ path;
           auth := apiKey self;
           payload := body |} in
      emit (Post request);;
      match network request with
      | inl m => reject m
      | inr res =>
          match stream return Async (ResponseOf stream) with
          | true => resolve res
          | false =>
              match failure (readable res) with
              | Some _ => fun log => (Pending, log)
              | None =>
                  let data := collect (chunks (readable res)) in
                  if negb (Z.eqb (statusCode res) 200) then
                    reject (Status "HTTP error! status: " (statusCode res))
                  else
                    match JSON.parse data with
                    | inr v => resolve v
                    | inl c =>
                        reject (Template "Failed to parse JSON response: "
                                         (Native c))
                    end
              end
          end
      end
  end.

(** [stream: request.stream], an optional boolean as a value. *)
Definition flag (b : option bool) : JSValue :=
  match b with
  | Some b => JBool b
  | None => JUndefined
  end.

(** [if (request.stream)] *)
Definition is_set (b : option bool) : bool :=
  match b with
  | Some true => true
  | _ => false
  end.

(** [if (request.variant) requestBody.variant = request.variant] *)
Definition with_variant (variant : option jsstring)
  (requestBody : list (jsstring * JSValue)) : list (jsstring * JSValue) :=
  match variant with
  | Some (c :: s) => requestBody ++ [(JS.lit "variant", JString (c :: s))]
  | _ => requestBody
  end.

(** [response.key] where [response] is the parsed body. *)
Definition field (key : string) (response : JSValue) : Async JSValue :=
  match get key response with
  | inl c => reject (Native c)
  | inr v => resolve v
  end.

(** In [caption] and [query] the source calls [makeRequest] once, with
    [request.stream], and then branches on [request.stream]; here the
    branch comes first, so that each arm knows what the response is. *)
Definition caption (self : vl) (request : CaptionRequest)
  : Async CaptionOutput :=
  let* encodedImage := encodeImage (caption_image request) in
  let requestBody :=
    [(JS.lit "image_url", JString (imageUrl encodedImage));
     (JS.lit "length", caption_length request);
     (JS.lit "stream", flag (caption_stream request))] in
  let requestBody := with_variant (caption_variant request) requestBody in
  if is_set (caption_stream request) then
    let* response :=
      makeRequest self (JS.lit "/caption") (JObject requestBody) true in
    resolve {| caption_ := Streamed (streamResponse (readable response)) |}
  else
    let* response :=
      makeRequest self (JS.lit "/caption") (JObject requestBody) false in
    let* text := field "caption" response in
    resolve {| caption_ := Plain text |}.

(** The request body of [query], from its first assignment to the
    last [if] before [makeRequest]. *)
Definition query_requestBody (request : QueryRequest)
  : Async (list (jsstring * JSValue)) :=
  let requestBody :=
    [(JS.lit "question", JString (query_question request));
     (JS.lit "stream", flag (query_stream request))] in
  let* requestBody :=
    match query_image request with
    | Some image =>
        let* encodedImage := encodeImage image in
        resolve (requestBody
                 ++ [(JS.lit "image_url", JString (imageUrl encodedImage))])
    | None => resolve requestBody
    end in
  let requestBody :=
    match query_reasoning request with
    | Some b => requestBody ++ [(JS.lit "reasoning", JBool b)]
    | None => requestBody
    end in
  resolve (with_variant (query_variant request) requestBody).

Definition query (self : vl) (request : QueryRequest) : Async QueryOutput :=
  let* requestBody := query_requestBody request in
  if is_set (query_stream request) then
    let* response :=
      makeRequest self (JS.lit "/query") (JObject requestBody) true in
    resolve {| answer := Streamed (streamResponse (readable response));
               reasoning := None |}
  else
    let* response :=
      makeRequest self (JS.lit "/query") (JObject requestBody) false in
    let* a := field "answer" response in
    let result := {| answer := Plain a; reasoning := None |} in
    let* r := field "reasoning" response in
    if truthy r then resolve {| answer := answer result; reasoning := Some r |}
    else resolve result.

Definition detect (self : vl) (request : DetectRequest)
  : Async DetectOutput :=
  let* encodedImage := encodeImage (detect_image request) in
  let requestBody :=
    [(JS.lit "image_url", JString (imageUrl encodedImage));
     (JS.lit "object", JString (detect_object request))] in
  let requestBody := with_variant (detect_variant request) requestBody in
  let* response :=
    makeRequest self (JS.lit "/detect") (JObject requestBody) false in
  let* found := field "objects" response in
  resolve {| objects := found |}.

Definition point (self : vl) (request : PointRequest) : Async PointOutput :=
  let* encodedImage := encodeImage (point_image request) in
  let requestBody :=
    [(JS.lit "image_url", JString (imageUrl encodedImage));
     (JS.lit "object", JString (point_object request))] in
  let requestBody := with_variant (point_variant request) requestBody in
  let* response :=
    makeRequest self (JS.lit "/point") (JObject requestBody) false in
  let* found := field "points" response in
  resolve {| points := found |}.

End Client.

(* ================================================================== *)
(** ** The decoder, line by line *)
(* ================================================================== *)

(** The text a stream brings: what its chunks decode to, end to end. *)
Definition received (response : Readable) : jsstring :=
  List.concat (map toString (chunks response)).

(** The decoder as section 4.3 of the specification words it, on the
    segments that the line feeds cut the received text into: every
    segment but the last is a complete line; the last is what the buffer
    holds when the stream ends, and is read as one more line unless the
    stream failed. *)
Definition decode_lines (segments : list jsstring) (failed : option Message)
  : Trace :=
  match for_lines on_line (removelast segments) with
  | (out, Return) => {| yielded := out; outcome := Completed |}
  | (out, Throw m) => {| yielded := out; outcome := Failed (stream_failure m) |}
  | (out, Next) =>
      match failed with
      | Some m => {| yielded := out; outcome := Failed (stream_failure m) |}
      | None =>
          match on_residual_line (last segments []) with
          | (out', Throw m) =>
              {| yielded := out ++ out'; outcome := Failed (stream_failure m) |}
          | (out', _) => {| yielded := out ++ out'; outcome := Completed |}
          end
      end
  end.

(* ================================================================== *)
(** ** Notions the claims are worded with *)
(* ================================================================== *)

(** No credential: the [apiKey] is absent or empty. *)
Definition no_apiKey (config : MoondreamVLConfig) : Prop :=
  config_apiKey config = None \/ config_apiKey config = Some [].

(** The default endpoint: the [endpoint] is absent, empty, or the
    default written out. *)
Definition default_endpoint (config : MoondreamVLConfig) : Prop :=
  config_endpoint config = None
  \/ config_endpoint config = Some []
  \/ config_endpoint config = Some DEFAULT_ENDPOINT.

(** The requests sent, in order. *)
Definition sent (log : list Event) : list Request :=
  flat_map (fun e => match e with Post r => [r] | _ => [] end) log.

(** The ways the conversion of a raw image fails, with the cause: the
    codec cannot read the bytes, a dimension is missing or zero, the
    codec refuses the quality, the codec cannot produce the JPEG. *)
Inductive EncodingFails (Image : Type) (jimp : Codec Image) (buffer : Buffer)
  : Message -> Prop :=
| Unreadable (m : Message) :
    jimp_read jimp buffer = inl m ->
    EncodingFails jimp buffer m
| NoDimensions (image : Image) :
    jimp_read jimp buffer = inr image ->
    missing (bitmap_width jimp image) = true
    \/ missing (bitmap_height jimp image) = true ->
    EncodingFails jimp buffer (Literal "Unable to get image dimensions")
| QualityRefused (image : Image) (m : Message) :
    jimp_read jimp buffer = inr image ->
    missing (bitmap_width jimp image) = false ->
    missing (bitmap_height jimp image) = false ->
    jimp_quality jimp 95 image = inl m ->
    EncodingFails jimp buffer m
| Unwritable (image image' : Image) (m : Message) :
    jimp_read jimp buffer = inr image ->
    missing (bitmap_width jimp image) = false ->
    missing (bitmap_height jimp image) = false ->
    jimp_quality jimp 95 image = inr image' ->
    jimp_getBuffer jimp "image/jpeg" image' = inl m ->
    EncodingFails jimp buffer m.

(* ================================================================== *)
(** ** Sample streams *)
(* ================================================================== *)

Module Sample.

(** The bytes of a line: the text, with apostrophes for double
    quotes, and a line feed. *)
Definition line (s : string) : Buffer := Utf8.bytes_dq s ++ [x0a].

Definition ends (cs : list Buffer) : Readable :=
  {| chunks := cs; failure := None |}.

Definition breaks (cs : list Buffer) : Readable :=
  {| chunks := cs; failure := Some (Native (External "aborted")) |}.

Definition str (s : string) : JSValue := JString (JS.lit s).

(** The frame of the specification, [data: {"chunk":"ab"}] and a line
    feed. *)
Definition ab : Buffer := line "data: {'chunk':'ab'}".

(** A frame whose fragment is U+00E9, two bytes in UTF-8, whole and
    cut between the two bytes. *)
Definition e_acute : Buffer :=
  Utf8.bytes_dq "data: {'chunk':'" ++ [xc3; xa9] ++ line "'}".
Definition e_acute_head : Buffer := Utf8.bytes_dq "data: {'chunk':'" ++ [xc3].
Definition e_acute_tail : Buffer := [xa9] ++ line "'}".

(** Three frames, the second of which is [completed], cut into
    chunks off the line boundaries, on a stream that then breaks. *)
Definition completed_in_the_middle : Readable :=
  breaks [Utf8.bytes_dq "data: {'chunk':'a'}";
          [x0a] ++ line "data: {'chunk':'b','completed':true}"
                ++ Utf8.bytes_dq "data: {'chu";
          line "nk':'c'}"].

(** A frame, then a frame without its line feed. *)
Definition unterminated : Readable :=
  ends [line "data: {'chunk':'a'}" ++ Utf8.bytes_dq "data: {'chunk':";
        Utf8.bytes_dq "'b'}"].

(** A frame, a line cut short, a frame. *)
Definition malformed : Readable :=
  ends [line "data: {'chunk':'a'}" ++ line "data: {'chunk':";
        line "data: {'chunk':'c'}"].

(** A frame, a comment line, a frame; the same without the comment;
    a frame and an unterminated line of another protocol. *)
Definition with_comment : Readable :=
  ends [line "data: {'chunk':'a'}" ++ line ": keep-alive";
        line "data: {'chunk':'c'}"].
Definition without_comment : Readable :=
  ends [line "data: {'chunk':'a'}"; line "data: {'chunk':'c'}"].
Definition trailing_noise : Readable :=
  ends [line "data: {'chunk':'a'}" ++ Utf8.bytes "event: done"].

(** A frame, a frame with neither [chunk] nor a truthy [completed], a
    frame; a frame and an unterminated empty frame. *)
Definition with_empty_frame : Readable :=
  ends [line "data: {'chunk':'a'}" ++ line "data: {'completed':false}";
        line "data: {'chunk':'c'}"].
Definition trailing_empty_frame : Readable :=
  ends [line "data: {'chunk':'a'}" ++ Utf8.bytes "data: {}"].

(** A codec for the examples: an image is the bytes read and the
    quality set; empty input cannot be read; every image is two by
    two; the JPEG produced is the quality followed by the bytes. *)
Definition codec : Codec (Buffer * Z) :=
  {| jimp_read := fun b =>
       match b with
       | [] => inl (Native (External "Could not find MIME for Buffer"))
       | _ :: _ => inr (b, 100%Z)
       end;
     bitmap_width := fun _ => Some 2%Z;
     bitmap_height := fun _ => Some 2%Z;
     jimp_quality := fun q image => inr (fst image, q);
     jimp_getBuffer := fun _ image =>
       inr (match Byte.of_N (Z.to_N (snd image)) with
            | Some q => q :: fst image
            | None => fst image
            end) |}.

(** A local server: every URL is well formed and every request is
    answered with status 200 and the given body in one chunk. *)
Definition any_URL (text : jsstring) : option Message := None.
Definition answers (body : Buffer) : Network :=
  fun _ => inr {| statusCode := 200; readable := ends [body] |}.
Definition local : vl :=
  {| apiKey := []; endpoint := JS.lit "http://localhost:2020/v1" |}.

Definition question : QueryRequest :=
  {| query_question := JS.lit "What is this?";
     query_image := None;
     query_reasoning := None;
     query_stream := None;
     query_variant := None |}.

Definition detect_nothing : DetectRequest :=
  {| detect_image := Raw [];
     detect_object := JS.lit "cat";
     detect_variant := None |}.

End Sample.

(* ================================================================== *)
(** ** Further notions and samples *)
(* ================================================================== *)

(** The values a line yields when it is read, in either loop. *)
Definition fragments_of (line : jsstring) : list JSValue :=
  fst (on_residual_line line).

(** A byte of the ASCII range. *)
Definition is_ascii (b : byte) : bool := N.leb (Byte.to_N b) 0x7F.

(** A line that does not start with [data: ]. *)
Definition unprefixed (line : jsstring) : bool :=
  negb (JS.startsWith line PREFIX).

(** The request bodies of [caption], [detect] and [point], as the
    methods build them from the request and the encoded image. *)
Definition caption_requestBody (request : CaptionRequest)
  (encodedImage : Base64EncodedImage) : list (jsstring * JSValue) :=
  with_variant (caption_variant request)
    [(JS.lit "image_url", JString (imageUrl encodedImage));
     (JS.lit "length", caption_length request);
     (JS.lit "stream", flag (caption_stream request))].

Definition detect_requestBody (request : DetectRequest)
  (encodedImage : Base64EncodedImage) : list (jsstring * JSValue) :=
  with_variant (detect_variant request)
    [(JS.lit "image_url", JString (imageUrl encodedImage));
     (JS.lit "object", JString (detect_object request))].

Definition point_requestBody (request : PointRequest)
  (encodedImage : Base64EncodedImage) : list (jsstring * JSValue) :=
  with_variant (point_variant request)
    [(JS.lit "image_url", JString (imageUrl encodedImage));
     (JS.lit "object", JString (point_object request))].

(** The value of the member [key] of an object, [undefined] when it has
    none. *)
Definition member_or_undefined (key : string)
  (ms : list (jsstring * JSValue)) : JSValue :=
  match member (JS.lit key) ms with
  | Some v => v
  | None => JUndefined
  end.

(** The calls [encodeImage] makes to the codec for a raw image, when
    none fails. *)
Definition codec_calls (buffer : Buffer) : list Event :=
  [JimpRead buffer; JimpQuality 95; JimpGetBuffer "image/jpeg"].

(** A code unit of the base64 alphabet, the padding included. *)
Definition base64_unit (c : N) : bool :=
  (N.leb 65 c && N.leb c 90) || (N.leb 97 c && N.leb c 122)
  || (N.leb 48 c && N.leb c 57) || N.eqb c 43 || N.eqb c 47 || N.eqb c 61.

(** What a dispatcher may have sent on the path [path] between two
    states of the log: nothing, or one request to the endpoint of the
    client followed by the path, with the key of the client and an
    object as body. *)
Definition at_most_one (self : vl) (path : string)
  (before after : list Event) : Prop :=
  sent after = sent before
  \/ exists members : list (jsstring * JSValue),
       sent after
       = sent before
         ++ [{| url := endpoint self ++ JS.lit path;
                auth := apiKey self;
                payload := JObject members |}].

(** The carriage return, ['\r']. *)
Definition CR : N := 13.

(** A line the decoder reads without failing: one that does not start
    with [data: ], or one whose remainder is JSON. *)
Definition decodable (line : jsstring) : bool :=
  if JS.startsWith line PREFIX then
    match JSON.parse (JS.slice 6 line) with
    | inr _ => true
    | inl _ => false
    end
  else true.

Module Scenario.

(** The frame whose fragment is U+00E9, cut before and after the
    character but not inside it. *)
Definition e_acute_cut_around : Readable :=
  Sample.ends [Utf8.bytes_dq "data: {'chunk':'";
               [xc3; xa9];
               Sample.line "'}"].

(** A frame and an unterminated frame on a stream that breaks. *)
Definition broken : Readable :=
  Sample.breaks [Sample.line "data: {'chunk':'a'}"
                 ++ Utf8.bytes_dq "data: {'chunk':'b'}"].

(** A frame, then a line whose JSON is [null]; a frame, then an
    unterminated line whose JSON is cut short. *)
Definition null_frame : Readable :=
  Sample.ends [Sample.line "data: {'chunk':'a'}";
               Sample.line "data: null" ++ Sample.line "data: {'chunk':'c'}"].
Definition cut_short : Readable :=
  Sample.ends [Sample.line "data: {'chunk':'a'}" ++ Utf8.bytes_dq "data: {'chu"].

(** A server that answers every request with the given status and the
    given body in one chunk. *)
Definition replies (status : Z) (body : Buffer) : Network :=
  fun _ => inr {| statusCode := status; readable := Sample.ends [body] |}.

Definition cat_png : Base64EncodedImage :=
  {| imageUrl := JS.lit "https://example.com/cat.png" |}.

Definition detect_cat : DetectRequest :=
  {| detect_image := Encoded cat_png;
     detect_object := JS.lit "cat";
     detect_variant := None |}.

Definition point_cat : PointRequest :=
  {| point_image := Encoded cat_png;
     point_object := JS.lit "cat";
     point_variant := Some (JS.lit "v2") |}.

Definition caption_cat (stream : option bool) : CaptionRequest :=
  {| caption_image := Encoded cat_png;
     caption_length := JString (JS.lit "short");
     caption_stream := stream;
     caption_variant := Some [] |}.

Definition question_streamed : QueryRequest :=
  {| query_question := JS.lit "What is this?";
     query_image := None;
     query_reasoning := Some false;
     query_stream := Some true;
     query_variant := None |}.

(** The requests these send from the client [Sample.local]. *)
Definition post (path : string) (members : list (jsstring * JSValue)) : Event :=
  Post {| url := JS.lit "http://localhost:2020/v1" ++ JS.lit path;
          auth := [];
          payload := JObject members |}.

Definition post_detect_cat : Event :=
  post "/detect" [(JS.lit "image_url", JString (imageUrl cat_png));
                  (JS.lit "object", Sample.str "cat")].

Definition post_point_cat : Event :=
  post "/point" [(JS.lit "image_url", JString (imageUrl cat_png));
                 (JS.lit "object", Sample.str "cat");
                 (JS.lit "variant", Sample.str "v2")].

Definition post_caption_cat (stream : option bool) : Event :=
  post "/caption" [(JS.lit "image_url", JString (imageUrl cat_png));
                   (JS.lit "length", Sample.str "short");
                   (JS.lit "stream", flag stream)].

Definition post_question_streamed : Event :=
  post "/query" [(JS.lit "question", Sample.str "What is this?");
                 (JS.lit "stream", JBool true);
                 (JS.lit "reasoning", JBool false)].

(** The [objects] of a response in one chunk and cut inside a number. *)
Definition objects_whole : Network :=
  replies 200 (Utf8.bytes_dq "{'objects':[1.5]}").
Definition objects_in_pieces : Network :=
  fun _ => inr {| statusCode := 200;
                  readable := Sample.ends [Utf8.bytes_dq "{'objects':[1";
                                           Utf8.bytes_dq ".5]}"] |}.

(** Two frames and a comment, with line feeds and with carriage
    returns before the line feeds. *)
Definition with_LF : Readable :=
  Sample.ends [Sample.line "data: {'chunk':'a'}" ++ Sample.line ": ping";
               Sample.line "data: {'chunk':'b','completed':true}"].
Definition with_CRLF : Readable :=
  Sample.ends [Utf8.bytes_dq "data: {'chunk':'a'}" ++ [x0d; x0a]
               ++ Utf8.bytes ": ping" ++ [x0d; x0a];
               Utf8.bytes_dq "data: {'chunk':'b','completed':true}"
               ++ [x0d; x0a]].

End Scenario.

(* ================================================================== *)
(** ** Lists and strings *)
(* ================================================================== *)

Lemma eqb_eq (s t : jsstring) : JS.eqb s t = true <-> s = t.
Proof.
  revert t; induction s as [|c s IH]; intros [|d t]; simpl;
    try (split; [discriminate | congruence]); try tauto.
  rewrite andb_true_iff, N.eqb_eq, IH. split.
  - intros [-> ->]; reflexivity.
  - intros H; injection H; auto.
Qed.

Lemma startsWith_app (p s : jsstring) : JS.startsWith (p ++ s) p = true.
Proof.
  induction p as [|c p IH]; simpl; [reflexivity|].
  now rewrite N.eqb_refl, IH.
Qed.

Lemma split_not_nil (sep : N) (s : jsstring) : JS.split sep s <> [].
Proof.
  induction s as [|c s IH]; simpl; [discriminate|].
  destruct (N.eqb c sep); [discriminate|].
  destruct (JS.split sep s); discriminate.
Qed.

(** A text without a separator is one segment. *)
Lemma split_without (sep : N) (s : jsstring) :
  ~ In sep s -> JS.split sep s = [s].
Proof.
  induction s as [|c s IH]; simpl; intros H; [reflexivity|].
  destruct (N.eqb_spec c sep) as [->|_]; [tauto|].
  rewrite IH by tauto. reflexivity.
Qed.

(** The last segment holds no separator. *)
Lemma last_split_without (sep : N) (s : jsstring) :
  ~ In sep (last (JS.split sep s) []).
Proof.
  induction s as [|c s IH]; simpl; [tauto|].
  destruct (N.eqb_spec c sep) as [->|Hc].
  - pose proof (split_not_nil sep s).
    destruct (JS.split sep s); [congruence | exact IH].
  - pose proof (split_not_nil sep s).
    destruct (JS.split sep s) as [|l [|l' ls]]; [congruence | |].
    + simpl in *. intros [E|E]; [congruence | tauto].
    + exact IH.
Qed.

(** Splitting a text cut in two: the complete segments of the first
    part, then the segments of what remained of it followed by the
    second part. *)
Lemma split_app (sep : N) (a b : jsstring) :
  JS.split sep (a ++ b)
  = removelast (JS.split sep a)
    ++ JS.split sep (last (JS.split sep a) [] ++ b).
Proof.
  induction a as [|c a IH]; simpl; [reflexivity|].
  pose proof (split_not_nil sep a) as Ha.
  pose proof (split_not_nil sep (last (JS.split sep a) [] ++ b)) as Hb.
  destruct (N.eqb_spec c sep) as [->|Hc].
  - rewrite IH. destruct (JS.split sep a); [congruence | reflexivity].
  - rewrite IH.
    destruct (JS.split sep a) as [|l [|l' ls]]; [congruence | |].
    + simpl. destruct (N.eqb_spec c sep); [congruence|]. reflexivity.
    + simpl in *.
      reflexivity.
Qed.

Lemma last_app_not_nil (A : Type) (l l' : list A) (d : A) :
  l' <> [] -> last (l ++ l') d = last l' d.
Proof.
  intros Hl'. induction l as [|a l IH]; [reflexivity|].
  simpl app. simpl last. rewrite IH.
  destruct (l ++ l') eqn:E; [|reflexivity].
  apply app_eq_nil in E. tauto.
Qed.

Lemma removelast_app_split (sep : N) (ls : list jsstring) (s : jsstring) :
  removelast (ls ++ JS.split sep s) = ls ++ removelast (JS.split sep s).
Proof. apply removelast_app, split_not_nil. Qed.

Lemma last_app_split (sep : N) (ls : list jsstring) (s : jsstring) :
  last (ls ++ JS.split sep s) [] = last (JS.split sep s) [].
Proof. apply last_app_not_nil, split_not_nil. Qed.

Lemma pop_split (sep : N) (s : jsstring) :
  JS.pop (JS.split sep s)
  = (Some (last (JS.split sep s) []), removelast (JS.split sep s)).
Proof.
  pose proof (split_not_nil sep s).
  unfold JS.pop. destruct (JS.split sep s); [congruence | reflexivity].
Qed.

Lemma or_default_nil (s : jsstring) : JS.or_default (Some s) [] = s.
Proof. destruct s; reflexivity. Qed.

(* ================================================================== *)
(** ** Decoding chunk by chunk *)
(* ================================================================== *)

Example toString_ascii : toString (Utf8.bytes "data: ") = JS.lit "data: ".
Proof. reflexivity. Qed.

(** U+00E9, U+20AC, and U+1F600 as a surrogate pair. *)
Example toString_multibyte :
  toString [xc3; xa9] = [0xE9%N]
  /\ toString [xe2; x82; xac] = [0x20AC%N]
  /\ toString [xf0; x9f; x98; x80] = [0xD83D%N; 0xDE00%N].
Proof. repeat split. Qed.

(** A sequence cut short, a continuation byte alone, an overlong form,
    a surrogate. *)
Example toString_ill_formed :
  toString [xc3] = [0xFFFD%N]
  /\ toString [xa9] = [0xFFFD%N]
  /\ toString [xc0; x80] = [0xFFFD%N; 0xFFFD%N]
  /\ toString [xed; xa0; x80] = [0xFFFD%N; 0xFFFD%N; 0xFFFD%N]
  /\ toString [xe2; x82; x41] = [0xFFFD%N; 0x41%N].
Proof. repeat split. Qed.

Lemma decode_from_app (a b : list N) : forall st : Utf8.Pending,
  Utf8.state_after st a = Utf8.Idle ->
  Utf8.decode_from st (a ++ b)
  = Utf8.decode_from st a ++ Utf8.decode_from Utf8.Idle b.
Proof.
  induction a as [|x a IH]; intros st H; simpl in *.
  - subst st. reflexivity.
  - destruct (Utf8.step st x) as [out st']. simpl in H.
    rewrite (IH st' H). now rewrite app_assoc.
Qed.

(** Decoding two buffers one after the other is decoding them joined,
    when the first ends on a character boundary. *)
Lemma toString_app (a b : Buffer) :
  Utf8.ends_on_boundary a ->
  toString (a ++ b) = toString a ++ toString b.
Proof.
  intros H. unfold toString, Utf8.decode.
  rewrite map_app, (decode_from_app _ _ _ H). apply flat_map_app.
Qed.

Lemma state_after_app (a b : list N) (st : Utf8.Pending) :
  Utf8.state_after st (a ++ b)
  = Utf8.state_after (Utf8.state_after st a) b.
Proof. revert st; induction a as [|x a IH]; intros st; simpl; auto. Qed.

(** Chunks that all end on character boundaries bring the text of their
    bytes joined. *)
Lemma received_on_boundaries (cs : list Buffer) :
  Forall Utf8.ends_on_boundary cs ->
  List.concat (map toString cs) = toString (List.concat cs)
  /\ Utf8.ends_on_boundary (List.concat cs).
Proof.
  induction 1 as [|c cs Hc _ [IH1 IH2]]; simpl.
  - split; reflexivity.
  - rewrite (toString_app _ Hc), IH1. split; [reflexivity|].
    unfold Utf8.ends_on_boundary in *.
    now rewrite map_app, state_after_app, Hc.
Qed.

(** Every cut of an ASCII stream is on a character boundary. *)
Lemma ascii_ends_on_boundary (c : Buffer) :
  Forall (fun b => (Byte.to_N b <= 0x7F)%N) c -> Utf8.ends_on_boundary c.
Proof.
  unfold Utf8.ends_on_boundary.
  induction 1 as [|b c Hb _ IH]; simpl; [reflexivity|].
  unfold Utf8.lead. apply N.leb_le in Hb. now rewrite Hb.
Qed.

(* ================================================================== *)
(** ** [JSON.parse], truthiness and base64 on examples *)
(* ================================================================== *)

Example parse_frame :
  JSON.parse (JS.dq "{'chunk':'ab'}")
  = inr (JObject [(JS.lit "chunk", JString (JS.lit "ab"))]).
Proof. reflexivity. Qed.

Example parse_nested :
  JSON.parse (JS.dq " { 'a' : [1, -2.50e3, true, null, {}, []] , 'a':'x\n' } ")
  = inr (JObject
           [(JS.lit "a",
             JArray [JNumber false 1 0; JNumber true 250 1; JBool true;
                     JNull; JObject []; JArray []]);
            (JS.lit "a", JString [120%N; 10%N])]).
Proof. reflexivity. Qed.

Example parse_rejects :
  Forall (fun s => JSON.parse (JS.dq s) = inl (SyntaxError (JS.dq s)))
    ["{'chunk':'ab'"; "[1,]"; "01"; "1 2"; ""; "tru"; "[]]"; "{'a':1,}";
     "1."; ".5"; "+1"; "{'a'}"; "{1:2}"; "'\x'"; "'\u12'"; "truefalse";
     "{'a':1 'b':2}"; "--1"; "1e"; "undefined"; "'a"]%string.
Proof. repeat constructor. Qed.

(** [1e-400] is read as zero, [5e-324] is not; an empty string is falsy
    and an empty object is not. *)
Example truthy_examples :
  map truthy [JNumber false 1 (-400); JNumber false 5 (-324);
              JNumber true 0 0; JString []; JString (JS.lit "0");
              JObject []; JArray []; JNull; JUndefined]
  = [false; true; false; false; true; true; true; false; false].
Proof. vm_compute. reflexivity. Qed.

Example base64_examples :
  Base64.encode (Utf8.bytes "Man") = JS.lit "TWFu"
  /\ Base64.encode (Utf8.bytes "Ma") = JS.lit "TWE="
  /\ Base64.encode (Utf8.bytes "M") = JS.lit "TQ=="
  /\ Base64.encode [xff; xfe; xfd; x00] = JS.lit "//79AA=="
  /\ Base64.encode [] = [].
Proof. repeat split. Qed.

(* ================================================================== *)
(** ** The loops of [streamResponse] *)
(* ================================================================== *)

(** A loop over two runs of lines is the loop over the first and, if it
    comes to its end, the loop over the second. *)
Lemma for_lines_app body (l1 l2 : list jsstring) :
  for_lines body (l1 ++ l2)
  = match for_lines body l1 with
    | (out, Next) => let (out', c) := for_lines body l2 in (out ++ out', c)
    | r => r
    end.
Proof.
  induction l1 as [|l l1 IH]; simpl.
  - destruct (for_lines body l2); reflexivity.
  - destruct (body l) as [out [| |m]]; try reflexivity.
    rewrite IH.
    destruct (for_lines body l1) as [out1 [| |m]]; try reflexivity.
    destruct (for_lines body l2) as [out2 c2].
    now rewrite app_assoc.
Qed.

Lemma for_lines_one body (l : jsstring) : for_lines body [l] = body l.
Proof.
  simpl. destruct (body l) as [out [| |m]]; try reflexivity.
  now rewrite app_nil_r.
Qed.

(** A line that yields nothing and goes on leaves no trace. *)
Lemma for_lines_skip body (before after : list jsstring) (l : jsstring) :
  body l = ([], Next) ->
  for_lines body (before ++ l :: after) = for_lines body (before ++ after).
Proof.
  intros Hl. rewrite !for_lines_app. simpl. rewrite Hl.
  destruct (for_lines body after); reflexivity.
Qed.

(** Both loops read a line the same way, but for [return]. *)
Lemma on_residual_line_on_line (l : jsstring) :
  on_residual_line l
  = match on_line l with
    | (out, Return) => (out, Next)
    | r => r
    end.
Proof.
  unfold on_residual_line, on_line.
  destruct (JS.startsWith l PREFIX); [|reflexivity].
  destruct (JSON.parse (JS.slice 6 l)) as [c|data]; [reflexivity|].
  destruct (has "chunk" data) as [c|present]; [reflexivity|].
  destruct (truthy (completed data)); reflexivity.
Qed.

(** The loop over the chunks, from a buffer that holds no line feed: it
    reads the complete lines of the text (the buffer and then the
    chunks), and, if it comes to the end of the stream, leaves the last
    segment in the buffer. *)
Lemma for_chunks_lines (cs : list Buffer) : forall buffer : jsstring,
  ~ In JS.LF buffer ->
  let segments := JS.split JS.LF (buffer ++ List.concat (map toString cs)) in
  fst (for_chunks buffer cs) = for_lines on_line (removelast segments)
  /\ (snd (fst (for_chunks buffer cs)) = Next ->
      snd (for_chunks buffer cs) = last segments []).
Proof.
  induction cs as [|chunk cs IH]; intros buffer Hb; cbn zeta.
  - simpl. rewrite app_nil_r, split_without by assumption. split; reflexivity.
  - simpl for_chunks. simpl List.concat.
    rewrite app_assoc.
    set (text := buffer ++ toString chunk).
    rewrite (split_app JS.LF text).
    rewrite removelast_app_split, last_app_split.
    rewrite pop_split, or_default_nil.
    specialize (IH (last (JS.split JS.LF text) [])
                   (last_split_without JS.LF text)).
    cbn zeta in IH. destruct IH as [IH1 IH2].
    rewrite for_lines_app.
    destruct (for_lines on_line (removelast (JS.split JS.LF text)))
      as [out [| |m]]; simpl; try (split; [reflexivity | discriminate]).
    rewrite <- IH1.
    destruct (for_chunks (last (JS.split JS.LF text) []) cs)
      as [[out' c'] buffer'].
    simpl in *. split; [reflexivity | exact IH2].
Qed.

(** [streamResponse] is the decoder of the specification on the
    segments of the received text: how the text came in chunks does not
    show. *)
Lemma streamResponse_decode_lines (response : Readable) :
  streamResponse response
  = decode_lines (JS.split JS.LF (received response)) (failure response).
Proof.
  unfold streamResponse, decode_lines, received.
  destruct (for_chunks_lines (chunks response) [] (fun H => H)) as [H1 H2].
  simpl app in H1, H2. rewrite <- H1.
  destruct (for_chunks [] (chunks response)) as [[out c] buffer].
  simpl in *. destruct c as [| |m]; try reflexivity.
  rewrite <- (H2 eq_refl).
  destruct (failure response); [reflexivity|].
  destruct buffer as [|b buffer]; simpl JS.nonempty; cbv iota.
  - unfold on_residual_line; simpl. now rewrite app_nil_r.
  - pose proof (last_split_without JS.LF
       (List.concat (map toString (chunks response)))) as Hlast.
    rewrite <- (H2 eq_refl) in Hlast.
    rewrite split_without, for_lines_one by assumption. reflexivity.
Qed.

(** Two streams that bring the same text and end the same way are
    decoded alike, however the text is cut into chunks. *)
Lemma streamResponse_same_text (r1 r2 : Readable) :
  received r1 = received r2 ->
  failure r1 = failure r2 ->
  streamResponse r1 = streamResponse r2.
Proof.
  intros Ht Hf. rewrite !streamResponse_decode_lines, Ht, Hf. reflexivity.
Qed.

(** What a line does in each loop, case by case. *)
Lemma on_line_unprefixed (l : jsstring) :
  JS.startsWith l PREFIX = false ->
  on_line l = ([], Next) /\ on_residual_line l = ([], Next).
Proof. unfold on_line, on_residual_line. intros ->. split; reflexivity. Qed.

Lemma on_line_frame (l : jsstring) (data : JSValue) (present : bool) :
  JS.startsWith l PREFIX = true ->
  JSON.parse (JS.slice 6 l) = inr data ->
  has "chunk" data = inr present ->
  on_line l = (if present then [chunk_of data] else [],
               if truthy (completed data) then Return else Next)
  /\ on_residual_line l = (if present then [chunk_of data] else [], Next).
Proof.
  unfold on_line, on_residual_line. intros -> -> ->.
  destruct (truthy (completed data)); split; reflexivity.
Qed.

Lemma on_line_malformed (l : jsstring) (c : Cause) :
  JS.startsWith l PREFIX = true ->
  JSON.parse (JS.slice 6 l) = inl c ->
  on_line l = ([], Throw (parse_failure c)).
Proof. unfold on_line. intros -> ->. reflexivity. Qed.

(** The decoder on a text whose line [l], complete, is reached. *)
Lemma decode_lines_reaches (before : list jsstring) (l next : jsstring)
  (rest : list jsstring) (failed : option Message) (out : list JSValue) :
  for_lines on_line before = (out, Next) ->
  decode_lines (before ++ l :: next :: rest) failed
  = match on_line l with
    | (out', Next) =>
        match for_lines on_line (removelast (next :: rest)) with
        | (out2, Return) =>
            {| yielded := out ++ out' ++ out2; outcome := Completed |}
        | (out2, Throw m) =>
            {| yielded := out ++ out' ++ out2;
               outcome := Failed (stream_failure m) |}
        | (out2, Next) =>
            match failed with
            | Some m =>
                {| yielded := out ++ out' ++ out2;
                   outcome := Failed (stream_failure m) |}
            | None =>
                match on_residual_line (last (next :: rest) []) with
                | (out3, Throw m) =>
                    {| yielded := (out ++ out' ++ out2) ++ out3;
                       outcome := Failed (stream_failure m) |}
                | (out3, _) =>
                    {| yielded := (out ++ out' ++ out2) ++ out3;
                       outcome := Completed |}
                end
            end
        end
    | (out', Return) => {| yielded := out ++ out'; outcome := Completed |}
    | (out', Throw m) =>
        {| yielded := out ++ out'; outcome := Failed (stream_failure m) |}
    end.
Proof.
  intros Hb. unfold decode_lines.
  rewrite removelast_app by discriminate.
  rewrite last_app_not_nil by discriminate.
  change (removelast (l :: next :: rest))
    with (l :: removelast (next :: rest)).
  change (last (l :: next :: rest) []) with (last (next :: rest) []).
  rewrite for_lines_app, Hb. cbn [for_lines].
  destruct (on_line l) as [out' [| |m]]; try reflexivity.
  destruct (for_lines on_line (removelast (next :: rest))) as [out2 c2].
  destruct c2; reflexivity.
Qed.

(** The decoder on a text whose last segment [l] is reached at the end
    of a stream that did not fail. *)
Lemma decode_lines_residual (before : list jsstring) (l : jsstring)
  (out : list JSValue) :
  for_lines on_line before = (out, Next) ->
  decode_lines (before ++ [l]) None
  = match on_residual_line l with
    | (out', Throw m) =>
        {| yielded := out ++ out'; outcome := Failed (stream_failure m) |}
    | (out', _) => {| yielded := out ++ out'; outcome := Completed |}
    end.
Proof.
  intros Hb. unfold decode_lines.
  rewrite removelast_last, last_last, Hb. reflexivity.
Qed.

(** A complete line that yields nothing and goes on can be left out. *)
Lemma decode_lines_skip (before : list jsstring) (l next : jsstring)
  (rest : list jsstring) (failed : option Message) :
  on_line l = ([], Next) ->
  decode_lines (before ++ l :: next :: rest) failed
  = decode_lines (before ++ next :: rest) failed.
Proof.
  intros Hl. unfold decode_lines.
  rewrite !removelast_app, !last_app_not_nil by discriminate.
  change (removelast (l :: next :: rest))
    with (l :: removelast (next :: rest)).
  change (last (l :: next :: rest) []) with (last (next :: rest) []).
  rewrite for_lines_skip by assumption. reflexivity.
Qed.

(* ================================================================== *)
(** ** The stream decoder: the claims *)
(* ================================================================== *)

(** Two streams of the same bytes, each cut into chunks on character
    boundaries (as every cut of an ASCII stream is), are decoded alike. *)
Lemma streamResponse_cut_on_boundaries (r1 r2 : Readable) :
  List.concat (chunks r1) = List.concat (chunks r2) ->
  Forall Utf8.ends_on_boundary (chunks r1) ->
  Forall Utf8.ends_on_boundary (chunks r2) ->
  failure r1 = failure r2 ->
  streamResponse r1 = streamResponse r2.
Proof.
  intros Hb H1 H2 Hf. apply streamResponse_same_text; [|exact Hf].
  unfold received.
  rewrite (proj1 (received_on_boundaries H1)).
  rewrite (proj1 (received_on_boundaries H2)).
  now rewrite Hb.
Qed.

(** The example of the specification: the frame [data: {"chunk":"ab"}]
    in one chunk and byte by byte gives the one fragment [ab]. *)
Example streamResponse_ab :
  streamResponse (Sample.ends [Sample.ab])
  = {| yielded := [Sample.str "ab"]; outcome := Completed |}
  /\ streamResponse (Sample.ends (map (fun b => [b]) Sample.ab))
     = {| yielded := [Sample.str "ab"]; outcome := Completed |}.
Proof. split; vm_compute; reflexivity. Qed.

(** C1. The decoder is to give the same fragments however the bytes of
    a stream are cut into chunks. It decodes every chunk to text on its
    own, so a chunk boundary inside a multi-byte character changes the
    text: the frame whose fragment is U+00E9 gives that fragment when it
    comes whole, and two U+FFFD when it is cut between the two bytes of
    the character. *)
Theorem streamResponse_cut_inside_character :
  Sample.e_acute_head ++ Sample.e_acute_tail = Sample.e_acute
  /\ streamResponse (Sample.ends [Sample.e_acute])
     = {| yielded := [JString [0xE9%N]]; outcome := Completed |}
  /\ streamResponse (Sample.ends [Sample.e_acute_head; Sample.e_acute_tail])
     = {| yielded := [JString [0xFFFD%N; 0xFFFD%N]]; outcome := Completed |}.
Proof. repeat split; vm_compute; reflexivity. Qed.

(** C2. When the decoder reaches a line whose frame has a truthy
    [completed], the sequence ends successfully there: it yields the
    fragments of the lines before, then the fragment of that frame if it
    has one, and nothing of what follows in the stream, whatever
    follows and however the stream would have ended. *)
Theorem completed_ends_the_sequence (response : Readable)
  (before after : list jsstring) (line : jsstring)
  (out : list JSValue) (data : JSValue) (present : bool) :
  JS.split JS.LF (received response) = before ++ line :: after ->
  (after = [] -> failure response = None) ->
  for_lines on_line before = (out, Next) ->
  JS.startsWith line PREFIX = true ->
  JSON.parse (JS.slice 6 line) = inr data ->
  has "chunk" data = inr present ->
  truthy (completed data) = true ->
  streamResponse response
  = {| yielded := out ++ (if present then [chunk_of data] else []);
       outcome := Completed |}.
Proof.
  intros Hs Hend Hb Hp Hj Hc Ht.
  destruct (on_line_frame line Hp Hj Hc) as [Hl Hr]. rewrite Ht in Hl.
  rewrite streamResponse_decode_lines, Hs.
  destruct after as [|next rest].
  - rewrite (Hend eq_refl), (decode_lines_residual _ _ Hb), Hr. reflexivity.
  - rewrite (decode_lines_reaches _ _ _ _ _ Hb), Hl. reflexivity.
Qed.

(** C3. When the stream ends, no line having ended the sequence, and
    the buffer holds an unterminated line that starts with [data: ] and
    parses to a frame with a [chunk], the decoder yields that fragment
    last and the sequence ends successfully. *)
Theorem residual_frame_is_flushed (response : Readable)
  (before : list jsstring) (line : jsstring)
  (out : list JSValue) (data : JSValue) :
  JS.split JS.LF (received response) = before ++ [line] ->
  failure response = None ->
  for_lines on_line before = (out, Next) ->
  JS.startsWith line PREFIX = true ->
  JSON.parse (JS.slice 6 line) = inr data ->
  has "chunk" data = inr true ->
  streamResponse response
  = {| yielded := out ++ [chunk_of data]; outcome := Completed |}.
Proof.
  intros Hs Hf Hb Hp Hj Hc.
  destruct (on_line_frame line Hp Hj Hc) as [_ Hr].
  rewrite streamResponse_decode_lines, Hs, Hf.
  rewrite (decode_lines_residual _ _ Hb), Hr. reflexivity.
Qed.

(** C4. When the decoder reaches a complete line that starts with
    [data: ] and whose remainder [JSON.parse] rejects, the sequence
    fails there with the parse error: the fragments of the lines before
    have been yielded, in order, none comes from that line, and no line
    after it is read. *)
Theorem malformed_line_fails (response : Readable)
  (before rest : list jsstring) (line next : jsstring)
  (out : list JSValue) (c : Cause) :
  JS.split JS.LF (received response) = before ++ line :: next :: rest ->
  for_lines on_line before = (out, Next) ->
  JS.startsWith line PREFIX = true ->
  JSON.parse (JS.slice 6 line) = inl c ->
  streamResponse response
  = {| yielded := out;
       outcome := Failed (stream_failure (parse_failure c)) |}.
Proof.
  intros Hs Hb Hp Hj.
  rewrite streamResponse_decode_lines, Hs.
  rewrite (decode_lines_reaches _ _ _ _ _ Hb), (on_line_malformed _ Hp Hj).
  now rewrite app_nil_r.
Qed.

(** C5. A line that does not start with [data: ] yields nothing and
    raises nothing. Complete, it is passed over: the stream is decoded
    as the stream without that line is. Unterminated at the end of the
    stream, it is dropped and the sequence ends successfully. *)
Theorem unprefixed_line_is_dropped (response : Readable)
  (before after : list jsstring) (line : jsstring) :
  JS.split JS.LF (received response) = before ++ line :: after ->
  JS.startsWith line PREFIX = false ->
  (forall (next : jsstring) (rest : list jsstring) (without : Readable),
      after = next :: rest ->
      JS.split JS.LF (received without) = before ++ after ->
      failure without = failure response ->
      streamResponse response = streamResponse without)
  /\ (forall out : list JSValue,
         after = [] ->
         failure response = None ->
         for_lines on_line before = (out, Next) ->
         streamResponse response
         = {| yielded := out; outcome := Completed |}).
Proof.
  intros Hs Hp. destruct (on_line_unprefixed line Hp) as [Hl Hr]. split.
  - intros next rest without -> Hs' Hf.
    rewrite !streamResponse_decode_lines, Hs, Hs', Hf.
    now apply decode_lines_skip.
  - intros out -> Hf Hb.
    rewrite streamResponse_decode_lines, Hs, Hf.
    rewrite (decode_lines_residual _ _ Hb), Hr. now rewrite app_nil_r.
Qed.

(** C6. A line [data: <json>] whose JSON parses to an object without a
    [chunk] and without a truthy [completed] yields nothing, raises
    nothing and does not end the sequence. Complete, it is passed over:
    the stream is decoded as the stream without that line is.
    Unterminated at the end of the stream, it only lets the sequence
    end successfully. *)
Theorem contentless_frame_is_skipped (response : Readable)
  (before after : list jsstring) (line : jsstring) (data : JSValue) :
  JS.split JS.LF (received response) = before ++ line :: after ->
  JS.startsWith line PREFIX = true ->
  JSON.parse (JS.slice 6 line) = inr data ->
  has "chunk" data = inr false ->
  truthy (completed data) = false ->
  (forall (next : jsstring) (rest : list jsstring) (without : Readable),
      after = next :: rest ->
      JS.split JS.LF (received without) = before ++ after ->
      failure without = failure response ->
      streamResponse response = streamResponse without)
  /\ (forall out : list JSValue,
         after = [] ->
         failure response = None ->
         for_lines on_line before = (out, Next) ->
         streamResponse response
         = {| yielded := out; outcome := Completed |}).
Proof.
  intros Hs Hp Hj Hc Ht.
  destruct (on_line_frame line Hp Hj Hc) as [Hl Hr]. rewrite Ht in Hl. split.
  - intros next rest without -> Hs' Hf.
    rewrite !streamResponse_decode_lines, Hs, Hs', Hf.
    now apply decode_lines_skip.
  - intros out -> Hf Hb.
    rewrite streamResponse_decode_lines, Hs, Hf.
    rewrite (decode_lines_residual _ _ Hb), Hr. now rewrite app_nil_r.
Qed.

(* ------------------------------------------------------------------ *)
(** *** The claims on sample streams *)

Lemma completed_ends_the_sequence_witness :
  streamResponse Sample.completed_in_the_middle
  = {| yielded := [Sample.str "a"; Sample.str "b"]; outcome := Completed |}.
Proof.
  apply (@completed_ends_the_sequence
           Sample.completed_in_the_middle
           [JS.dq "data: {'chunk':'a'}"]
           [JS.dq "data: {'chunk':'c'}"; []]
           (JS.dq "data: {'chunk':'b','completed':true}")
           [Sample.str "a"]
           (JObject [(JS.lit "chunk", Sample.str "b");
                     (JS.lit "completed", JBool true)])
           true);
    try reflexivity.
  intros H; discriminate H.
Defined.

Lemma residual_frame_is_flushed_witness :
  streamResponse Sample.unterminated
  = {| yielded := [Sample.str "a"; Sample.str "b"]; outcome := Completed |}.
Proof.
  apply (@residual_frame_is_flushed
           Sample.unterminated
           [JS.dq "data: {'chunk':'a'}"]
           (JS.dq "data: {'chunk':'b'}")
           [Sample.str "a"]
           (JObject [(JS.lit "chunk", Sample.str "b")]));
    reflexivity.
Defined.

Lemma malformed_line_fails_witness :
  streamResponse Sample.malformed
  = {| yielded := [Sample.str "a"];
       outcome :=
         Failed (stream_failure
                   (parse_failure (SyntaxError (JS.dq "{'chunk':")))) |}.
Proof.
  apply (@malformed_line_fails
           Sample.malformed
           [JS.dq "data: {'chunk':'a'}"]
           [[]]
           (JS.dq "data: {'chunk':")
           (JS.dq "data: {'chunk':'c'}")
           [Sample.str "a"]
           (SyntaxError (JS.dq "{'chunk':")));
    reflexivity.
Defined.

Lemma unprefixed_line_is_dropped_witness :
  streamResponse Sample.with_comment = streamResponse Sample.without_comment
  /\ streamResponse Sample.trailing_noise
     = {| yielded := [Sample.str "a"]; outcome := Completed |}.
Proof.
  split.
  - apply (proj1 (@unprefixed_line_is_dropped
                    Sample.with_comment
                    [JS.dq "data: {'chunk':'a'}"]
                    [JS.dq "data: {'chunk':'c'}"; []]
                    (JS.lit ": keep-alive")
                    eq_refl eq_refl)
                 (JS.dq "data: {'chunk':'c'}") [[]]);
      reflexivity.
  - apply (proj2 (@unprefixed_line_is_dropped
                    Sample.trailing_noise
                    [JS.dq "data: {'chunk':'a'}"]
                    []
                    (JS.lit "event: done")
                    eq_refl eq_refl));
      reflexivity.
Defined.

Lemma contentless_frame_is_skipped_witness :
  streamResponse Sample.with_empty_frame
  = streamResponse Sample.without_comment
  /\ streamResponse Sample.trailing_empty_frame
     = {| yielded := [Sample.str "a"]; outcome := Completed |}.
Proof.
  split.
  - apply (proj1 (@contentless_frame_is_skipped
                    Sample.with_empty_frame
                    [JS.dq "data: {'chunk':'a'}"]
                    [JS.dq "data: {'chunk':'c'}"; []]
                    (JS.dq "data: {'completed':false}")
                    (JObject [(JS.lit "completed", JBool false)])
                    eq_refl eq_refl eq_refl eq_refl eq_refl)
                 (JS.dq "data: {'chunk':'c'}") [[]]);
      reflexivity.
  - apply (proj2 (@contentless_frame_is_skipped
                    Sample.trailing_empty_frame
                    [JS.dq "data: {'chunk':'a'}"]
                    []
                    (JS.lit "data: {}")
                    (JObject [])
                    eq_refl eq_refl eq_refl eq_refl eq_refl));
      reflexivity.
Defined.

(* ================================================================== *)
(** ** The constructor *)
(* ================================================================== *)

Lemma or_default_default (x : option jsstring) (d : jsstring) :
  x = None \/ x = Some [] -> JS.or_default x d = d.
Proof. intros [-> | ->]; reflexivity. Qed.

(** C7, as the claim has it: an endpoint other than the default, and no
    [apiKey]. The empty string is such an endpoint, and with it the
    constructor throws. *)
Lemma constructor_empty_endpoint_throws :
  [] <> DEFAULT_ENDPOINT
  /\ constructor {| config_apiKey := None; config_endpoint := Some [] |}
     = inl (Literal "An apiKey is required for cloud inference. ").
Proof. split; [discriminate | reflexivity]. Qed.

(** C7, amended. The constructor throws exactly when there is no
    [apiKey] (absent or empty) and the endpoint is the default (absent,
    empty, or the default string written out). With an [apiKey] it
    succeeds for every endpoint, and with an endpoint that is given, not
    empty and not the default string it succeeds without an [apiKey];
    the client then holds the key ([''] for none) and the endpoint (the
    default for none). *)
Theorem constructor_requires_apiKey (config : MoondreamVLConfig) :
  (no_apiKey config /\ default_endpoint config ->
   constructor config
   = inl (Literal "An apiKey is required for cloud inference. "))
  /\ (~ (no_apiKey config /\ default_endpoint config) ->
      constructor config
      = inr {| apiKey := JS.or_default (config_apiKey config) [];
               endpoint :=
                 JS.or_default (config_endpoint config) DEFAULT_ENDPOINT |}).
Proof.
  unfold no_apiKey, default_endpoint, constructor.
  destruct config as [key ep]; simpl. split.
  - intros [Hk He].
    rewrite (or_default_default _ Hk).
    assert (JS.or_default ep DEFAULT_ENDPOINT = DEFAULT_ENDPOINT) as ->.
    { destruct He as [-> | [-> | ->]]; reflexivity. }
    reflexivity.
  - intros H.
    destruct (JS.eqb (JS.or_default key []) []) eqn:Ek; [|reflexivity].
    destruct (JS.eqb (JS.or_default ep DEFAULT_ENDPOINT) DEFAULT_ENDPOINT)
      eqn:Ee; [|reflexivity].
    exfalso. apply H. apply eqb_eq in Ek, Ee. split.
    + destruct key as [[|c s]|]; [right | discriminate Ek | left]; reflexivity.
    + destruct ep as [[|c s]|]; cbn [JS.or_default] in Ee.
      * right; left; reflexivity.
      * right; right. now rewrite Ee.
      * left; reflexivity.
Qed.

Lemma constructor_requires_apiKey_witness :
  constructor {| config_apiKey := Some [];
                 config_endpoint := Some DEFAULT_ENDPOINT |}
  = inl (Literal "An apiKey is required for cloud inference. ")
  /\ constructor {| config_apiKey := None;
                    config_endpoint := Some (JS.lit "http://localhost:2020/v1") |}
     = inr Sample.local.
Proof.
  split.
  - apply (proj1 (constructor_requires_apiKey
                    {| config_apiKey := Some [];
                       config_endpoint := Some DEFAULT_ENDPOINT |})).
    split; [right; reflexivity | right; right; reflexivity].
  - apply (proj2 (constructor_requires_apiKey
                    {| config_apiKey := None;
                       config_endpoint :=
                         Some (JS.lit "http://localhost:2020/v1") |})).
    intros [_ [H | [H | H]]]; discriminate H.
Defined.

(* ================================================================== *)
(** ** The image normaliser *)
(* ================================================================== *)

(** One step of an asynchronous computation whose outcome is known. *)
Ltac step H := cbv beta iota delta [await emit call resolve reject try_catch];
               rewrite ?H; cbv beta iota.

(** C8. An image that is already encoded (it has an [imageUrl]) comes
    back as it is: the codec is not called and nothing is sent. So
    normalising twice is normalising once. *)
Theorem encodeImage_encoded_unchanged (Image : Type) (jimp : Codec Image)
  (e : Base64EncodedImage) (log : list Event) :
  encodeImage jimp (Encoded e) log = (Resolved e, log)
  /\ (let* once := encodeImage jimp (Encoded e) in
      encodeImage jimp (Encoded once)) log
     = (Resolved e, log).
Proof. split; reflexivity. Qed.

(** The conversion of a raw image only talks to the codec. *)
Lemma encodeImage_sends_nothing (Image : Type) (jimp : Codec Image)
  (image : ImageInput) (log : list Event) :
  sent (snd (encodeImage jimp image log)) = sent log.
Proof.
  destruct image as [buffer|e]; [|reflexivity].
  unfold encodeImage, sent.
  cbv beta iota delta [await emit call resolve reject try_catch].
  destruct (jimp_read jimp buffer) as [m|image]; cbv beta iota;
    [simpl; now rewrite flat_map_app, app_nil_r|].
  destruct (missing (bitmap_width jimp image)
            || missing (bitmap_height jimp image)); cbv beta iota;
    [simpl; now rewrite flat_map_app, app_nil_r|].
  destruct (jimp_quality jimp 95 image) as [m|image']; cbv beta iota;
    [simpl; now rewrite !flat_map_app, !app_nil_r|].
  destruct (jimp_getBuffer jimp "image/jpeg" image') as [m|jpeg];
    cbv beta iota; simpl; now rewrite !flat_map_app, !app_nil_r.
Qed.

(** How the conversion of a raw image fails. *)
Lemma encodeImage_fails (Image : Type) (jimp : Codec Image)
  (buffer : Buffer) (cause : Message) (log : list Event) :
  EncodingFails jimp buffer cause ->
  fst (encodeImage jimp (Raw buffer) log)
  = Rejected (Template "Failed to convert image to JPEG: " cause).
Proof.
  intros H. unfold encodeImage.
  cbv beta iota delta [await emit call resolve reject try_catch].
  destruct H as [m Hr | image Hr Hd | image m Hr Hw Hh Hq
                | image image' m Hr Hw Hh Hq Hg];
    rewrite Hr; cbv beta iota.
  - reflexivity.
  - assert (missing (bitmap_width jimp image)
            || missing (bitmap_height jimp image) = true) as ->
      by (apply orb_true_iff; exact Hd).
    reflexivity.
  - rewrite Hw, Hh, Hq. reflexivity.
  - rewrite Hw, Hh, Hq. cbv beta iota. rewrite Hg. reflexivity.
Qed.

(** A raw image is converted or fails in one of the four ways: there
    is no other case. *)
Lemma encoding_succeeds_or_fails (Image : Type) (jimp : Codec Image)
  (buffer : Buffer) :
  (exists (image image' : Image) (jpeg : Buffer),
      jimp_read jimp buffer = inr image
      /\ missing (bitmap_width jimp image) = false
      /\ missing (bitmap_height jimp image) = false
      /\ jimp_quality jimp 95 image = inr image'
      /\ jimp_getBuffer jimp "image/jpeg" image' = inr jpeg)
  \/ (exists cause : Message, EncodingFails jimp buffer cause).
Proof.
  destruct (jimp_read jimp buffer) as [m|image] eqn:Hr;
    [right; eexists; apply Unreadable; eassumption|].
  destruct (missing (bitmap_width jimp image)) eqn:Hw;
    [right; eexists; eapply NoDimensions; eauto|].
  destruct (missing (bitmap_height jimp image)) eqn:Hh;
    [right; eexists; eapply NoDimensions; eauto|].
  destruct (jimp_quality jimp 95 image) as [m|image'] eqn:Hq;
    [right; eexists; eapply QualityRefused; eauto|].
  destruct (jimp_getBuffer jimp "image/jpeg" image') as [m|jpeg] eqn:Hg;
    [right; eexists; eapply Unwritable; eauto|].
  left. exists image, image', jpeg. auto.
Qed.

(** C9. A raw image that the codec reads, with a width and a height
    that are not zero, becomes the data URI [data:image/jpeg;base64,]
    followed by the base64 of the JPEG that the codec produces at
    quality 95. When the codec cannot read the bytes, a dimension is
    missing, or the codec fails to produce the JPEG, the conversion
    fails with [Failed to convert image to JPEG: ] followed by the
    message of the cause, and [caption], [query], [detect] and [point]
    fail with that error without sending a request. *)
Theorem encodeImage_raw_to_jpeg (Image : Type) (jimp : Codec Image)
  (new_URL : jsstring -> option Message) (network : Network) (self : vl)
  (buffer : Buffer) (log : list Event) :
  (forall (image image' : Image) (jpeg : Buffer),
      jimp_read jimp buffer = inr image ->
      missing (bitmap_width jimp image) = false ->
      missing (bitmap_height jimp image) = false ->
      jimp_quality jimp 95 image = inr image' ->
      jimp_getBuffer jimp "image/jpeg" image' = inr jpeg ->
      encodeImage jimp (Raw buffer) log
      = (Resolved {| imageUrl := JS.lit "data:image/jpeg;base64,"
                                 ++ Base64.encode jpeg |},
         log ++ [JimpRead buffer; JimpQuality 95;
                 JimpGetBuffer "image/jpeg"]))
  /\ (forall cause : Message,
         EncodingFails jimp buffer cause ->
         exists log' : list Event,
           let failed {A} : Promise A * list Event :=
             (Rejected (Template "Failed to convert image to JPEG: " cause),
              log') in
           encodeImage jimp (Raw buffer) log = failed
           /\ sent log' = sent log
           /\ (forall r, caption_image r = Raw buffer ->
                         caption jimp new_URL network self r log = failed)
           /\ (forall r, query_image r = Some (Raw buffer) ->
                         query jimp new_URL network self r log = failed)
           /\ (forall r, detect_image r = Raw buffer ->
                         detect jimp new_URL network self r log = failed)
           /\ (forall r, point_image r = Raw buffer ->
                         point jimp new_URL network self r log = failed)).
Proof.
  split.
  - intros image image' jpeg Hr Hw Hh Hq Hg. unfold encodeImage.
    step Hr. rewrite Hw, Hh. step Hq. step Hg.
    cbn [orb]. cbv beta iota. now rewrite <- !app_assoc.
  - intros cause Hf.
    pose proof (encodeImage_fails log Hf) as Hfst.
    pose proof (encodeImage_sends_nothing jimp (Raw buffer) log) as Hsnd.
    destruct (encodeImage jimp (Raw buffer) log) as [p log'] eqn:He.
    simpl in Hfst, Hsnd. subst p. exists log'. cbv zeta.
    repeat split; trivial.
    + intros r Hi. unfold caption. rewrite Hi. unfold await at 1.
      now rewrite He.
    + intros r Hi. unfold query, query_requestBody. rewrite Hi.
      unfold await at 1 2 3. now rewrite He.
    + intros r Hi. unfold detect. rewrite Hi. unfold await at 1.
      now rewrite He.
    + intros r Hi. unfold point. rewrite Hi. unfold await at 1.
      now rewrite He.
Qed.

Lemma encodeImage_raw_to_jpeg_witness :
  encodeImage Sample.codec (Raw [x89; x50]) []
  = (Resolved {| imageUrl := JS.lit "data:image/jpeg;base64,X4lQ" |},
     [JimpRead [x89; x50]; JimpQuality 95; JimpGetBuffer "image/jpeg"])
  /\ exists log' : list Event,
       detect Sample.codec Sample.any_URL (Sample.answers [])
              Sample.local Sample.detect_nothing []
       = (Rejected
            (Template "Failed to convert image to JPEG: "
               (Native (External "Could not find MIME for Buffer"))),
          log')
       /\ sent log' = [].
Proof.
  split.
  - apply (proj1 (encodeImage_raw_to_jpeg
                    Sample.codec Sample.any_URL (Sample.answers [])
                    Sample.local [x89; x50] [])
                 ([x89; x50], 100%Z) ([x89; x50], 95%Z) [x5f; x89; x50]);
      reflexivity.
  - destruct (proj2 (encodeImage_raw_to_jpeg
                       Sample.codec Sample.any_URL (Sample.answers [])
                       Sample.local [] [])
                    (Native (External "Could not find MIME for Buffer"))
                    (Unreadable Sample.codec [] eq_refl))
      as [log' [_ [Hsent [_ [_ [Hdetect _]]]]]].
    exists log'. split.
    + apply Hdetect. reflexivity.
    + exact Hsent.
Defined.

(* ================================================================== *)
(** ** [query] and the reasoning of the response *)
(* ================================================================== *)

(** C10, as the claim has it: a response that has a [reasoning] field.
    When the value of the field is falsy, here the empty string, the
    output has no [reasoning]. *)
Lemma query_drops_falsy_reasoning :
  let text := "{'answer':'x','reasoning':''}"%string in
  let response :=
    JObject [(JS.lit "answer", Sample.str "x");
             (JS.lit "reasoning", Sample.str "")] in
  JSON.parse (JS.dq text) = inr response
  /\ has "reasoning" response = inr true
  /\ fst (query Sample.codec Sample.any_URL
                (Sample.answers (Utf8.bytes_dq text))
                Sample.local Sample.question [])
     = Resolved {| answer := Plain (Sample.str "x"); reasoning := None |}.
Proof. repeat split. Qed.

(** C10, amended. In a query that does not stream, the output has the
    [answer] of the parsed response, and it has the [reasoning] of the
    response exactly when that value is truthy: a response without a
    [reasoning] field, or with one that is falsy (an empty string,
    [null], [false], zero), gives an output without [reasoning]. *)
Theorem query_propagates_truthy_reasoning (Image : Type) (jimp : Codec Image)
  (new_URL : jsstring -> option Message) (network : Network) (self : vl)
  (request : QueryRequest) (log log1 log2 : list Event)
  (requestBody : list (jsstring * JSValue)) (response r : JSValue) :
  is_set (query_stream request) = false ->
  query_requestBody jimp request log = (Resolved requestBody, log1) ->
  makeRequest new_URL network self (JS.lit "/query") (JObject requestBody)
              false log1
  = (Resolved response, log2) ->
  get "reasoning" response = inr r ->
  (has "reasoning" response = inr false -> truthy r = false)
  /\ exists a : JSValue,
       get "answer" response = inr a
       /\ query jimp new_URL network self request log
          = (Resolved {| answer := Plain a;
                         reasoning := if truthy r then Some r else None |},
             log2).
Proof.
  intros Hs Hb Hm Hr. split.
  - destruct response; try discriminate.
    + simpl. intros _. injection Hr as <-. reflexivity.
    + unfold has, get in *.
      destruct (member (JS.lit "reasoning") members); [discriminate|].
      intros _. injection Hr as <-. reflexivity.
  - assert (exists a, get "answer" response = inr a) as [a Ha].
    { destruct response; try discriminate; eexists; reflexivity. }
    exists a. split; [exact Ha|].
    unfold query. unfold await at 1. rewrite Hb, Hs.
    unfold await at 1. rewrite Hm.
    unfold field. rewrite Ha, Hr.
    cbv beta iota delta [await resolve].
    destruct (truthy r); reflexivity.
Qed.

Lemma query_propagates_truthy_reasoning_witness :
  query Sample.codec Sample.any_URL
        (Sample.answers
           (Utf8.bytes_dq "{'answer':'x','reasoning':{'text':'why'}}"))
        Sample.local Sample.question []
  = (Resolved
       {| answer := Plain (Sample.str "x");
          reasoning := Some (JObject [(JS.lit "text", Sample.str "why")]) |},
     [Post {| url := JS.lit "http://localhost:2020/v1/query";
              auth := [];
              payload := JObject [(JS.lit "question",
                                   Sample.str "What is this?");
                                  (JS.lit "stream", JUndefined)] |}]).
Proof.
  destruct (@query_propagates_truthy_reasoning
              (Buffer * Z) Sample.codec Sample.any_URL
              (Sample.answers
                 (Utf8.bytes_dq "{'answer':'x','reasoning':{'text':'why'}}"))
              Sample.local Sample.question [] []
              [Post {| url := JS.lit "http://localhost:2020/v1/query";
                       auth := [];
                       payload := JObject [(JS.lit "question",
                                            Sample.str "What is this?");
                                           (JS.lit "stream", JUndefined)] |}]
              [(JS.lit "question", Sample.str "What is this?");
               (JS.lit "stream", JUndefined)]
              (JObject [(JS.lit "answer", Sample.str "x");
                        (JS.lit "reasoning",
                         JObject [(JS.lit "text", Sample.str "why")])])
              (JObject [(JS.lit "text", Sample.str "why")])
              eq_refl eq_refl eq_refl eq_refl)
    as [_ [a [Ha Hq]]].
  injection Ha as <-. exact Hq.
Defined.


(* ================================================================== *)
(** ** More on the stream decoder *)
(* ================================================================== *)

Lemma streamResponse_cut_on_boundaries_witness :
  streamResponse Scenario.e_acute_cut_around
  = streamResponse (Sample.ends [Sample.e_acute]).
Proof.
  apply (@streamResponse_cut_on_boundaries
           Scenario.e_acute_cut_around (Sample.ends [Sample.e_acute]));
    try reflexivity; repeat constructor.
Defined.

Lemma is_ascii_ends_on_boundary (cs : list Buffer) :
  forallb is_ascii (List.concat cs) = true ->
  Forall Utf8.ends_on_boundary cs.
Proof.
  intros H. pose proof (proj1 (forallb_forall is_ascii _) H) as H'.
  assert (Forall (fun b => (Byte.to_N b <= 0x7F)%N) (List.concat cs)) as HF.
  { apply Forall_forall. intros b Hb. apply N.leb_le. exact (H' b Hb). }
  apply Forall_concat in HF. clear H H'.
  induction HF as [|c cs Hc _ IH]; [constructor|].
  constructor; [now apply ascii_ends_on_boundary | exact IH].
Qed.

(** A stream of ASCII bytes is decoded alike however it is cut into
    chunks: the trace depends on the bytes and on how the stream ends
    only. *)
Theorem streamResponse_ascii_chunking (r1 r2 : Readable) :
  List.concat (chunks r1) = List.concat (chunks r2) ->
  forallb is_ascii (List.concat (chunks r1)) = true ->
  failure r1 = failure r2 ->
  streamResponse r1 = streamResponse r2.
Proof.
  intros Hb Ha Hf. apply streamResponse_same_text; [|exact Hf].
  unfold received.
  rewrite (proj1 (received_on_boundaries (is_ascii_ends_on_boundary _ Ha))).
  rewrite Hb in Ha.
  rewrite (proj1 (received_on_boundaries (is_ascii_ends_on_boundary _ Ha))).
  now rewrite Hb.
Qed.

Lemma streamResponse_ascii_chunking_witness :
  streamResponse (Sample.ends (map (fun b => [b]) Sample.ab))
  = streamResponse (Sample.ends [Sample.ab]).
Proof.
  apply (@streamResponse_ascii_chunking
           (Sample.ends (map (fun b => [b]) Sample.ab))
           (Sample.ends [Sample.ab]));
    reflexivity.
Defined.

(** When the stream fails, the lines completed before having run
    through, the sequence fails with [Failed to stream response: ] and
    the message of the stream's error; what the buffer holds then, an
    unterminated line, is not read. *)
Theorem stream_error_drops_the_residue (response : Readable)
  (m : Message) (out : list JSValue) :
  failure response = Some m ->
  for_lines on_line (removelast (JS.split JS.LF (received response)))
  = (out, Next) ->
  streamResponse response
  = {| yielded := out; outcome := Failed (stream_failure m) |}.
Proof.
  intros Hf Hl. rewrite streamResponse_decode_lines. unfold decode_lines.
  now rewrite Hl, Hf.
Qed.

Lemma stream_error_drops_the_residue_witness :
  streamResponse Scenario.broken
  = {| yielded := [Sample.str "a"];
       outcome := Failed (stream_failure (Native (External "aborted"))) |}.
Proof.
  apply (@stream_error_drops_the_residue
           Scenario.broken (Native (External "aborted")) [Sample.str "a"]);
    reflexivity.
Defined.

Lemma on_line_primitive (l : jsstring) (data : JSValue) (c : Cause) :
  JS.startsWith l PREFIX = true ->
  JSON.parse (JS.slice 6 l) = inr data ->
  has "chunk" data = inl c ->
  on_line l = ([], Throw (parse_failure c))
  /\ on_residual_line l = ([], Throw (parse_failure c)).
Proof.
  unfold on_line, on_residual_line. intros -> -> ->. split; reflexivity.
Qed.

(** A line [data: <json>] whose JSON is well formed but no object and
    no array (a number, a string, a boolean, [null]) fails the sequence
    when the decoder reaches it: the [in] test throws a [TypeError],
    which is reported as a parse failure. Nothing is yielded from the
    line nor after it. *)
Theorem primitive_frame_fails (response : Readable)
  (before after : list jsstring) (line : jsstring)
  (out : list JSValue) (data : JSValue) :
  JS.split JS.LF (received response) = before ++ line :: after ->
  (after = [] -> failure response = None) ->
  for_lines on_line before = (out, Next) ->
  JS.startsWith line PREFIX = true ->
  JSON.parse (JS.slice 6 line) = inr data ->
  (forall ms, data <> JObject ms) ->
  (forall es, data <> JArray es) ->
  streamResponse response
  = {| yielded := out;
       outcome :=
         Failed (stream_failure
                   (parse_failure (InTypeError "chunk" data))) |}.
Proof.
  intros Hs Hend Hb Hp Hj Ho Ha.
  assert (has "chunk" data = inl (InTypeError "chunk" data)) as Hc.
  { destruct data; try reflexivity;
      [exfalso; eapply Ha | exfalso; eapply Ho]; reflexivity. }
  destruct (on_line_primitive line Hp Hj Hc) as [Hl Hr].
  rewrite streamResponse_decode_lines, Hs.
  destruct after as [|next rest].
  - rewrite (Hend eq_refl), (decode_lines_residual _ _ Hb), Hr.
    now rewrite app_nil_r.
  - rewrite (decode_lines_reaches _ _ _ _ _ Hb), Hl. now rewrite app_nil_r.
Qed.

Lemma primitive_frame_fails_witness :
  streamResponse Scenario.null_frame
  = {| yielded := [Sample.str "a"];
       outcome :=
         Failed (stream_failure
                   (parse_failure (InTypeError "chunk" JNull))) |}.
Proof.
  apply (@primitive_frame_fails
           Scenario.null_frame
           [JS.dq "data: {'chunk':'a'}"]
           [JS.dq "data: {'chunk':'c'}"; []]
           (JS.lit "data: null")
           [Sample.str "a"] JNull);
    try reflexivity; intros; discriminate.
Defined.

(** An unterminated line at the end of the stream that starts with
    [data: ] and whose remainder [JSON.parse] rejects, as a frame cut
    short by the end of the stream is, fails the sequence: the
    fragments of the lines before have been yielded. *)
Theorem malformed_residue_fails (response : Readable)
  (before : list jsstring) (line : jsstring)
  (out : list JSValue) (c : Cause) :
  JS.split JS.LF (received response) = before ++ [line] ->
  failure response = None ->
  for_lines on_line before = (out, Next) ->
  JS.startsWith line PREFIX = true ->
  JSON.parse (JS.slice 6 line) = inl c ->
  streamResponse response
  = {| yielded := out;
       outcome := Failed (stream_failure (parse_failure c)) |}.
Proof.
  intros Hs Hf Hb Hp Hj.
  rewrite streamResponse_decode_lines, Hs, Hf.
  rewrite (decode_lines_residual _ _ Hb).
  unfold on_residual_line. rewrite Hp, Hj. now rewrite app_nil_r.
Qed.

Lemma malformed_residue_fails_witness :
  streamResponse Scenario.cut_short
  = {| yielded := [Sample.str "a"];
       outcome :=
         Failed (stream_failure
                   (parse_failure (SyntaxError (JS.dq "{'chu")))) |}.
Proof.
  apply (@malformed_residue_fails
           Scenario.cut_short
           [JS.dq "data: {'chunk':'a'}"]
           (JS.dq "data: {'chu")
           [Sample.str "a"]
           (SyntaxError (JS.dq "{'chu")));
    reflexivity.
Defined.

Lemma fst_on_line (l : jsstring) : fst (on_line l) = fragments_of l.
Proof.
  unfold fragments_of. rewrite on_residual_line_on_line.
  destruct (on_line l) as [out [| |m]]; reflexivity.
Qed.

(** What a loop over lines yields is the fragments of the lines it
    read, in order: all of them when it comes to its end. *)
Lemma for_lines_fragments (ls : list jsstring) :
  exists rest : list JSValue,
    flat_map fragments_of ls = fst (for_lines on_line ls) ++ rest
    /\ (snd (for_lines on_line ls) = Next -> rest = []).
Proof.
  induction ls as [|l ls [rest [IH1 IH2]]]; simpl.
  - exists []. split; reflexivity.
  - rewrite <- fst_on_line, IH1.
    destruct (on_line l) as [out c]; simpl.
    destruct (for_lines on_line ls) as [out' c']; simpl in *.
    destruct c as [| |m]; simpl.
    + exists rest. split; [now rewrite app_assoc | exact IH2].
    + exists (out' ++ rest). split; [reflexivity | discriminate].
    + exists (out' ++ rest). split; [reflexivity | discriminate].
Qed.

(** The decoder yields fragments in the order of the lines of the text
    and nothing else: what it yields is an initial part of the [chunk]
    values of the lines that start with [data: ], taken in order. *)
Theorem yielded_in_arrival_order (response : Readable) :
  exists rest : list JSValue,
    flat_map fragments_of (JS.split JS.LF (received response))
    = yielded (streamResponse response) ++ rest.
Proof.
  rewrite streamResponse_decode_lines. unfold decode_lines.
  set (segments := JS.split JS.LF (received response)).
  assert (segments = removelast segments ++ [last segments []]) as E
    by (apply app_removelast_last, split_not_nil).
  replace (flat_map fragments_of segments)
    with (flat_map fragments_of (removelast segments ++ [last segments []]))
    by (now rewrite <- E).
  rewrite flat_map_app. simpl flat_map. rewrite app_nil_r.
  destruct (for_lines_fragments (removelast segments)) as [rest [H1 H2]].
  rewrite H1.
  destruct (for_lines on_line (removelast segments)) as [out c]; simpl in *.
  destruct c as [| |m]; simpl.
  - rewrite (H2 eq_refl), app_nil_r. unfold fragments_of.
    destruct (failure response).
    + simpl. eexists; reflexivity.
    + destruct (on_residual_line (last segments [])) as [out' [| |m]];
        simpl; exists []; now rewrite app_nil_r.
  - rewrite <- app_assoc. eexists; reflexivity.
  - rewrite <- app_assoc. eexists; reflexivity.
Qed.

(** The loop over the chunks of a stream read in two parts. *)
Lemma for_chunks_app (cs more : list Buffer) : forall buffer : jsstring,
  for_chunks buffer (cs ++ more)
  = match for_chunks buffer cs with
    | (out, Next, b) =>
        let '(out', c, b') := for_chunks b more in (out ++ out', c, b')
    | r => r
    end.
Proof.
  induction cs as [|chunk cs IH]; intros buffer.
  - simpl. destruct (for_chunks buffer more) as [[out c] b]. reflexivity.
  - simpl.
    destruct (JS.pop (JS.split JS.LF (buffer ++ toString chunk)))
      as [popped lines].
    destruct (for_lines on_line lines) as [out [| |m]]; try reflexivity.
    rewrite IH.
    destruct (for_chunks (JS.or_default popped []) cs) as [[out1 c1] b1].
    destruct c1 as [| |m]; try reflexivity.
    destruct (for_chunks b1 more) as [[out2 c2] b2].
    now rewrite app_assoc.
Qed.

(** The decoder is incremental: what it has yielded when it has read
    the first chunks of a stream stays, whatever chunks follow and
    however the stream ends; later input only adds to it. *)
Theorem yielded_so_far_stays (cs more : list Buffer)
  (ending : option Message) :
  exists later : list JSValue,
    yielded (streamResponse {| chunks := cs ++ more; failure := ending |})
    = fst (fst (for_chunks [] cs)) ++ later.
Proof.
  unfold streamResponse. simpl chunks. simpl failure.
  rewrite for_chunks_app.
  destruct (for_chunks [] cs) as [[out c] b]. simpl.
  destruct c as [| |m]; try (exists []; simpl; now rewrite app_nil_r).
  destruct (for_chunks b more) as [[out' c'] b'].
  destruct c' as [| |m]; try (eexists; reflexivity).
  destruct ending; [eexists; reflexivity|].
  destruct (JS.nonempty b'); [|eexists; reflexivity].
  destruct (for_lines on_residual_line (JS.split JS.LF b')) as [out2 [| |m]];
    simpl; rewrite <- app_assoc; eexists; reflexivity.
Qed.

(** A text none of whose lines starts with [data: ] yields nothing, and
    the sequence ends successfully when the stream does. *)
Lemma for_lines_unprefixed (ls : list jsstring) :
  forallb unprefixed ls = true -> for_lines on_line ls = ([], Next).
Proof.
  induction ls as [|l ls IH]; simpl; [reflexivity|].
  intros H. apply andb_true_iff in H. destruct H as [Hl Hls].
  unfold unprefixed in Hl. apply negb_true_iff in Hl.
  rewrite (proj1 (on_line_unprefixed l Hl)), (IH Hls). reflexivity.
Qed.

Lemma streamResponse_unprefixed (response : Readable) :
  forallb unprefixed (JS.split JS.LF (received response)) = true ->
  failure response = None ->
  streamResponse response = {| yielded := []; outcome := Completed |}.
Proof.
  intros H Hf. rewrite streamResponse_decode_lines. unfold decode_lines.
  set (segments := JS.split JS.LF (received response)) in *.
  assert (segments = removelast segments ++ [last segments []]) as E
    by (apply app_removelast_last, split_not_nil).
  rewrite E, forallb_app in H. apply andb_true_iff in H.
  destruct H as [H1 H2]. simpl in H2. rewrite andb_true_r in H2.
  unfold unprefixed in H2. apply negb_true_iff in H2.
  rewrite (for_lines_unprefixed _ H1), Hf.
  rewrite (proj2 (on_line_unprefixed _ H2)). reflexivity.
Qed.

(* ================================================================== *)
(** ** [makeRequest] *)
(* ================================================================== *)

Lemma sent_app (log log' : list Event) : sent (log ++ log') = sent log ++ sent log'.
Proof. apply flat_map_app. Qed.

(** The body read chunk by chunk is the text the chunks bring. *)
Lemma collect_received (cs : list Buffer) :
  collect cs = List.concat (map toString cs).
Proof.
  unfold collect.
  assert (forall data,
             fold_left (fun d chunk => d ++ toString chunk) cs data
             = data ++ List.concat (map toString cs)) as H.
  { induction cs as [|c cs IH]; intros data; simpl.
    - now rewrite app_nil_r.
    - now rewrite IH, app_assoc. }
  apply (H []).
Qed.

Section Requests.

Variable new_URL : jsstring -> option Message.
Variable network : Network.
Variable self : vl.
Variable path : jsstring.
Variable payload0 : JSValue.

(** The request [makeRequest] sends. *)
Let request : Request :=
  {| url := endpoint self ++ path; auth := apiKey self; payload := payload0 |}.

Lemma makeRequest_invalid_URL (stream : bool) (m : Message) (log : list Event) :
  new_URL (endpoint self ++ path) = Some m ->
  makeRequest new_URL network self path payload0 stream log = (Rejected m, log).
Proof. unfold makeRequest. intros ->. reflexivity. Qed.

Lemma makeRequest_no_response (stream : bool) (m : Message) (log : list Event) :
  new_URL (endpoint self ++ path) = None ->
  network request = inl m ->
  makeRequest new_URL network self path payload0 stream log
  = (Rejected m, log ++ [Post request]).
Proof.
  unfold makeRequest. intros -> H. fold request.
  cbv beta iota delta [await emit reject]. now rewrite H.
Qed.

Lemma makeRequest_live (res : IncomingMessage) (log : list Event) :
  new_URL (endpoint self ++ path) = None ->
  network request = inr res ->
  makeRequest new_URL network self path payload0 true log
  = (Resolved res, log ++ [Post request]).
Proof.
  unfold makeRequest. intros -> H. fold request.
  cbv beta iota delta [await emit resolve]. now rewrite H.
Qed.

Lemma makeRequest_buffered (res : IncomingMessage) (log : list Event) :
  new_URL (endpoint self ++ path) = None ->
  network request = inr res ->
  failure (readable res) = None ->
  makeRequest new_URL network self path payload0 false log
  = (if negb (Z.eqb (statusCode res) 200) then
       Rejected (Status "HTTP error! status: " (statusCode res))
     else
       match JSON.parse (received (readable res)) with
       | inr v => Resolved v
       | inl c => Rejected (Template "Failed to parse JSON response: " (Native c))
       end,
     log ++ [Post request]).
Proof.
  unfold makeRequest. intros -> H Hf. fold request.
  cbv beta iota delta [await emit]. rewrite H, Hf.
  rewrite collect_received. fold (received (readable res)).
  destruct (negb (Z.eqb (statusCode res) 200)); [reflexivity|].
  destruct (JSON.parse (received (readable res))); reflexivity.
Qed.

(** [makeRequest] sends one request, to the endpoint followed by the
    path, with the key of the client and the body given, unless the URL
    is not well formed, in which case it sends nothing; whether it is to
    stream and whatever the answer. *)
Theorem makeRequest_sends_one_request (stream : bool) (log : list Event) :
  sent (snd (makeRequest new_URL network self path payload0 stream log))
  = sent log
    ++ match new_URL (endpoint self ++ path) with
       | None => [{| url := endpoint self ++ path;
                     auth := apiKey self;
                     payload := payload0 |}]
       | Some _ => []
       end.
Proof.
  unfold makeRequest.
  destruct (new_URL (endpoint self ++ path)) as [m|];
    [simpl; now rewrite app_nil_r|].
  fold request. cbv beta iota delta [await emit].
  assert (sent (log ++ [Post request]) = sent log ++ [request]) as E
    by (now rewrite sent_app).
  destruct (network request) as [m|res]; [exact E|].
  destruct stream; [exact E|].
  destruct (failure (readable res)); [exact E|].
  destruct (negb (Z.eqb (statusCode res) 200)); [exact E|].
  destruct (JSON.parse (collect (chunks (readable res)))); exact E.
Qed.

(** A response whose status is not 200 is rejected with the status,
    when the request is not to stream: the body is not parsed, be it
    the JSON expected or not. *)
Theorem makeRequest_status_comes_first (res : IncomingMessage)
  (log : list Event) :
  new_URL (endpoint self ++ path) = None ->
  network {| url := endpoint self ++ path;
             auth := apiKey self;
             payload := payload0 |} = inr res ->
  failure (readable res) = None ->
  statusCode res <> 200%Z ->
  fst (makeRequest new_URL network self path payload0 false log)
  = Rejected (Status "HTTP error! status: " (statusCode res)).
Proof.
  intros Hu Hn Hf Hs. rewrite (makeRequest_buffered log Hu Hn Hf).
  apply Z.eqb_neq in Hs. now rewrite Hs.
Qed.

End Requests.

(* ================================================================== *)
(** ** The task dispatchers *)
(* ================================================================== *)

Lemma await_resolved (A B : Type) (c : Async A) (k : A -> Async B) (a : A)
  (log log' : list Event) :
  c log = (Resolved a, log') -> await c k log = k a log'.
Proof. unfold await. intros ->. reflexivity. Qed.

Lemma await_rejected (A B : Type) (c : Async A) (k : A -> Async B)
  (m : Message) (log log' : list Event) :
  c log = (Rejected m, log') -> await c k log = (Rejected m, log').
Proof. unfold await. intros ->. reflexivity. Qed.

Section Dispatch.

Variable Image : Type.
Variable jimp : Codec Image.
Variable new_URL : jsstring -> option Message.
Variable network : Network.
Variable self : vl.

(** The dispatchers do not handle the failure of the request: the
    error [makeRequest] rejects with (a transport error, a status that
    is not 200, a body that is not JSON) is the error of [caption],
    [query], [detect] and [point], as it is, and nothing more is sent. *)
Theorem request_failures_pass_through (m : Message) (log log1 log2 : list Event) :
  (forall r enc,
      encodeImage jimp (caption_image r) log = (Resolved enc, log1) ->
      makeRequest new_URL network self (JS.lit "/caption")
                  (JObject (caption_requestBody r enc))
                  (is_set (caption_stream r)) log1
      = (Rejected m, log2) ->
      caption jimp new_URL network self r log = (Rejected m, log2))
  /\ (forall r requestBody,
         query_requestBody jimp r log = (Resolved requestBody, log1) ->
         makeRequest new_URL network self (JS.lit "/query")
                     (JObject requestBody) (is_set (query_stream r)) log1
         = (Rejected m, log2) ->
         query jimp new_URL network self r log = (Rejected m, log2))
  /\ (forall r enc,
         encodeImage jimp (detect_image r) log = (Resolved enc, log1) ->
         makeRequest new_URL network self (JS.lit "/detect")
                     (JObject (detect_requestBody r enc)) false log1
         = (Rejected m, log2) ->
         detect jimp new_URL network self r log = (Rejected m, log2))
  /\ (forall r enc,
         encodeImage jimp (point_image r) log = (Resolved enc, log1) ->
         makeRequest new_URL network self (JS.lit "/point")
                     (JObject (point_requestBody r enc)) false log1
         = (Rejected m, log2) ->
         point jimp new_URL network self r log = (Rejected m, log2)).
Proof.
  repeat split.
  - intros r enc He Hm. unfold caption. rewrite (await_resolved _ _ _ He).
    fold (caption_requestBody r enc).
    destruct (is_set (caption_stream r)); now rewrite (await_rejected _ _ _ Hm).
  - intros r requestBody Hb Hm. unfold query. rewrite (await_resolved _ _ _ Hb).
    destruct (is_set (query_stream r)); now rewrite (await_rejected _ _ _ Hm).
  - intros r enc He Hm. unfold detect. rewrite (await_resolved _ _ _ He).
    fold (detect_requestBody r enc). now rewrite (await_rejected _ _ _ Hm).
  - intros r enc He Hm. unfold point. rewrite (await_resolved _ _ _ He).
    fold (point_requestBody r enc). now rewrite (await_rejected _ _ _ Hm).
Qed.

(** [detect] end to end: for an image that is encoded, a URL that is
    well formed and a response of status 200 whose body is a JSON
    object, it sends the one request, to [/detect], with the image URL,
    the object and the variant if there is one, and resolves with the
    [objects] of the response as they are; a response without [objects]
    gives [undefined], not an error. *)
Theorem detect_returns_objects (r : DetectRequest) (enc : Base64EncodedImage)
  (res : IncomingMessage) (ms : list (jsstring * JSValue))
  (log log1 : list Event) :
  let request :=
    {| url := endpoint self ++ JS.lit "/detect";
       auth := apiKey self;
       payload := JObject (detect_requestBody r enc) |} in
  encodeImage jimp (detect_image r) log = (Resolved enc, log1) ->
  new_URL (endpoint self ++ JS.lit "/detect") = None ->
  network request = inr res ->
  failure (readable res) = None ->
  statusCode res = 200%Z ->
  JSON.parse (received (readable res)) = inr (JObject ms) ->
  detect jimp new_URL network self r log
  = (Resolved {| objects := member_or_undefined "objects" ms |},
     log1 ++ [Post request]).
Proof.
  intros request He Hu Hn Hf Hs Hj. unfold detect.
  rewrite (await_resolved _ _ _ He). fold (detect_requestBody r enc).
  pose proof (@makeRequest_buffered new_URL network self (JS.lit "/detect")
                (JObject (detect_requestBody r enc)) res log1 Hu Hn Hf) as Hm.
  rewrite Hs, Hj in Hm. simpl in Hm.
  now rewrite (await_resolved _ _ _ Hm).
Qed.

(** [point] end to end, likewise: one request to [/point], and the
    [points] of the response as they are. *)
Theorem point_returns_points (r : PointRequest) (enc : Base64EncodedImage)
  (res : IncomingMessage) (ms : list (jsstring * JSValue))
  (log log1 : list Event) :
  let request :=
    {| url := endpoint self ++ JS.lit "/point";
       auth := apiKey self;
       payload := JObject (point_requestBody r enc) |} in
  encodeImage jimp (point_image r) log = (Resolved enc, log1) ->
  new_URL (endpoint self ++ JS.lit "/point") = None ->
  network request = inr res ->
  failure (readable res) = None ->
  statusCode res = 200%Z ->
  JSON.parse (received (readable res)) = inr (JObject ms) ->
  point jimp new_URL network self r log
  = (Resolved {| points := member_or_undefined "points" ms |},
     log1 ++ [Post request]).
Proof.
  intros request He Hu Hn Hf Hs Hj. unfold point.
  rewrite (await_resolved _ _ _ He). fold (point_requestBody r enc).
  pose proof (@makeRequest_buffered new_URL network self (JS.lit "/point")
                (JObject (point_requestBody r enc)) res log1 Hu Hn Hf) as Hm.
  rewrite Hs, Hj in Hm. simpl in Hm.
  now rewrite (await_resolved _ _ _ Hm).
Qed.

(** [caption] without streaming ([stream] absent or [false]), end to
    end: one request to [/caption] with the image URL, the length, the
    [stream] given and the variant if there is one, and the [caption]
    of the response as it is. *)
Theorem caption_returns_caption (r : CaptionRequest) (enc : Base64EncodedImage)
  (res : IncomingMessage) (ms : list (jsstring * JSValue))
  (log log1 : list Event) :
  let request :=
    {| url := endpoint self ++ JS.lit "/caption";
       auth := apiKey self;
       payload := JObject (caption_requestBody r enc) |} in
  is_set (caption_stream r) = false ->
  encodeImage jimp (caption_image r) log = (Resolved enc, log1) ->
  new_URL (endpoint self ++ JS.lit "/caption") = None ->
  network request = inr res ->
  failure (readable res) = None ->
  statusCode res = 200%Z ->
  JSON.parse (received (readable res)) = inr (JObject ms) ->
  caption jimp new_URL network self r log
  = (Resolved {| caption_ := Plain (member_or_undefined "caption" ms) |},
     log1 ++ [Post request]).
Proof.
  intros request Hst He Hu Hn Hf Hs Hj. unfold caption.
  rewrite (await_resolved _ _ _ He). fold (caption_requestBody r enc).
  rewrite Hst.
  pose proof (@makeRequest_buffered new_URL network self (JS.lit "/caption")
                (JObject (caption_requestBody r enc)) res log1 Hu Hn Hf) as Hm.
  rewrite Hs, Hj in Hm. simpl in Hm.
  now rewrite (await_resolved _ _ _ Hm).
Qed.

(** A response of status 200 whose body is the JSON [null] makes every
    dispatcher that does not stream fail with the [TypeError] of
    reading a property of [null], as it is thrown. *)
Theorem null_response_is_a_TypeError (log log1 log2 : list Event) :
  (forall r enc,
      is_set (caption_stream r) = false ->
      encodeImage jimp (caption_image r) log = (Resolved enc, log1) ->
      makeRequest new_URL network self (JS.lit "/caption")
                  (JObject (caption_requestBody r enc)) false log1
      = (Resolved JNull, log2) ->
      caption jimp new_URL network self r log
      = (Rejected (Native (ReadTypeError "caption" JNull)), log2))
  /\ (forall r requestBody,
         is_set (query_stream r) = false ->
         query_requestBody jimp r log = (Resolved requestBody, log1) ->
         makeRequest new_URL network self (JS.lit "/query")
                     (JObject requestBody) false log1
         = (Resolved JNull, log2) ->
         query jimp new_URL network self r log
         = (Rejected (Native (ReadTypeError "answer" JNull)), log2))
  /\ (forall r enc,
         encodeImage jimp (detect_image r) log = (Resolved enc, log1) ->
         makeRequest new_URL network self (JS.lit "/detect")
                     (JObject (detect_requestBody r enc)) false log1
         = (Resolved JNull, log2) ->
         detect jimp new_URL network self r log
         = (Rejected (Native (ReadTypeError "objects" JNull)), log2))
  /\ (forall r enc,
         encodeImage jimp (point_image r) log = (Resolved enc, log1) ->
         makeRequest new_URL network self (JS.lit "/point")
                     (JObject (point_requestBody r enc)) false log1
         = (Resolved JNull, log2) ->
         point jimp new_URL network self r log
         = (Rejected (Native (ReadTypeError "points" JNull)), log2)).
Proof.
  repeat split.
  - intros r enc Hst He Hm. unfold caption. rewrite (await_resolved _ _ _ He).
    fold (caption_requestBody r enc). rewrite Hst.
    now rewrite (await_resolved _ _ _ Hm).
  - intros r requestBody Hst Hb Hm. unfold query.
    rewrite (await_resolved _ _ _ Hb), Hst.
    now rewrite (await_resolved _ _ _ Hm).
  - intros r enc He Hm. unfold detect. rewrite (await_resolved _ _ _ He).
    fold (detect_requestBody r enc). now rewrite (await_resolved _ _ _ Hm).
  - intros r enc He Hm. unfold point. rewrite (await_resolved _ _ _ He).
    fold (point_requestBody r enc). now rewrite (await_resolved _ _ _ Hm).
Qed.

(** In [caption] and [query] with [stream: true] the status of the
    response is not looked at. A response whose body has no line that
    starts with [data: ], as the JSON or the page of an error response
    has none, gives a generator that yields nothing and ends
    successfully, whatever the status. *)
Theorem streaming_hides_http_errors (res : IncomingMessage)
  (log log1 : list Event) :
  forallb unprefixed (JS.split JS.LF (received (readable res))) = true ->
  failure (readable res) = None ->
  (forall r enc,
      let request :=
        {| url := endpoint self ++ JS.lit "/caption";
           auth := apiKey self;
           payload := JObject (caption_requestBody r enc) |} in
      is_set (caption_stream r) = true ->
      encodeImage jimp (caption_image r) log = (Resolved enc, log1) ->
      new_URL (endpoint self ++ JS.lit "/caption") = None ->
      network request = inr res ->
      caption jimp new_URL network self r log
      = (Resolved {| caption_ :=
                       Streamed {| yielded := []; outcome := Completed |} |},
         log1 ++ [Post request]))
  /\ (forall r requestBody,
         let request :=
           {| url := endpoint self ++ JS.lit "/query";
              auth := apiKey self;
              payload := JObject requestBody |} in
         is_set (query_stream r) = true ->
         query_requestBody jimp r log = (Resolved requestBody, log1) ->
         new_URL (endpoint self ++ JS.lit "/query") = None ->
         network request = inr res ->
         query jimp new_URL network self r log
         = (Resolved {| answer :=
                          Streamed {| yielded := []; outcome := Completed |};
                        reasoning := None |},
            log1 ++ [Post request])).
Proof.
  intros Hd Hf. pose proof (streamResponse_unprefixed _ Hd Hf) as Hs. split.
  - intros r enc request Hst He Hu Hn. unfold caption.
    rewrite (await_resolved _ _ _ He). fold (caption_requestBody r enc).
    rewrite Hst.
    rewrite (await_resolved _ _ _
               (@makeRequest_live new_URL network self (JS.lit "/caption")
                  (JObject (caption_requestBody r enc)) res log1 Hu Hn)).
    now rewrite Hs.
  - intros r requestBody request Hst Hb Hu Hn. unfold query.
    rewrite (await_resolved _ _ _ Hb), Hst.
    rewrite (await_resolved _ _ _
               (@makeRequest_live new_URL network self (JS.lit "/query")
                  (JObject requestBody) res log1 Hu Hn)).
    now rewrite Hs.
Qed.

End Dispatch.

(* ------------------------------------------------------------------ *)
(** *** The requests and the dispatchers on sample servers *)

Lemma makeRequest_status_comes_first_witness :
  fst (makeRequest Sample.any_URL
         (Scenario.replies 500 (Utf8.bytes_dq "{'objects':[]}"))
         Sample.local (JS.lit "/detect") (JObject []) false [])
  = Rejected (Status "HTTP error! status: " 500).
Proof.
  apply (@makeRequest_status_comes_first
           Sample.any_URL
           (Scenario.replies 500 (Utf8.bytes_dq "{'objects':[]}"))
           Sample.local (JS.lit "/detect") (JObject [])
           {| statusCode := 500;
              readable := Sample.ends [Utf8.bytes_dq "{'objects':[]}"] |}
           []);
    try reflexivity.
  intros H; discriminate H.
Defined.

Lemma request_failures_pass_through_witness :
  detect Sample.codec Sample.any_URL
         (Scenario.replies 500 (Utf8.bytes_dq "{'objects':[]}"))
         Sample.local Scenario.detect_cat []
  = (Rejected (Status "HTTP error! status: " 500), [Scenario.post_detect_cat])
  /\ query Sample.codec Sample.any_URL
           (Scenario.replies 200 (Utf8.bytes "<html>"))
           Sample.local Sample.question []
     = (Rejected (Template "Failed to parse JSON response: "
                    (Native (SyntaxError (JS.lit "<html>")))),
        [Scenario.post "/query"
           [(JS.lit "question", Sample.str "What is this?");
            (JS.lit "stream", JUndefined)]]).
Proof.
  split.
  - apply (proj1 (proj2 (proj2
             (@request_failures_pass_through
                (Buffer * Z) Sample.codec Sample.any_URL
                (Scenario.replies 500 (Utf8.bytes_dq "{'objects':[]}"))
                Sample.local
                (Status "HTTP error! status: " 500)
                [] [] [Scenario.post_detect_cat])))
             Scenario.detect_cat Scenario.cat_png);
      reflexivity.
  - apply (proj1 (proj2
             (@request_failures_pass_through
                (Buffer * Z) Sample.codec Sample.any_URL
                (Scenario.replies 200 (Utf8.bytes "<html>"))
                Sample.local
                (Template "Failed to parse JSON response: "
                   (Native (SyntaxError (JS.lit "<html>"))))
                [] []
                [Scenario.post "/query"
                   [(JS.lit "question", Sample.str "What is this?");
                    (JS.lit "stream", JUndefined)]]))
             Sample.question
             [(JS.lit "question", Sample.str "What is this?");
              (JS.lit "stream", JUndefined)]);
      reflexivity.
Defined.

Lemma detect_returns_objects_witness :
  detect Sample.codec Sample.any_URL
         (Scenario.replies 200 (Utf8.bytes_dq "{'objects':[{'x_min':0.25}]}"))
         Sample.local Scenario.detect_cat []
  = (Resolved
       {| objects :=
            JArray [JObject [(JS.lit "x_min", JNumber false 25 (-2))]] |},
     [Scenario.post_detect_cat]).
Proof.
  apply (@detect_returns_objects
           (Buffer * Z) Sample.codec Sample.any_URL
           (Scenario.replies 200 (Utf8.bytes_dq "{'objects':[{'x_min':0.25}]}"))
           Sample.local Scenario.detect_cat Scenario.cat_png
           {| statusCode := 200;
              readable :=
                Sample.ends [Utf8.bytes_dq "{'objects':[{'x_min':0.25}]}"] |}
           [(JS.lit "objects",
             JArray [JObject [(JS.lit "x_min", JNumber false 25 (-2))]])]
           [] []);
    reflexivity.
Defined.

(** A response without [points]: [undefined]. *)
Lemma point_returns_points_witness :
  point Sample.codec Sample.any_URL
        (Scenario.replies 200 (Utf8.bytes_dq "{'request_id':'r1'}"))
        Sample.local Scenario.point_cat []
  = (Resolved {| points := JUndefined |}, [Scenario.post_point_cat]).
Proof.
  apply (@point_returns_points
           (Buffer * Z) Sample.codec Sample.any_URL
           (Scenario.replies 200 (Utf8.bytes_dq "{'request_id':'r1'}"))
           Sample.local Scenario.point_cat Scenario.cat_png
           {| statusCode := 200;
              readable := Sample.ends [Utf8.bytes_dq "{'request_id':'r1'}"] |}
           [(JS.lit "request_id", Sample.str "r1")]
           [] []);
    reflexivity.
Defined.

Lemma caption_returns_caption_witness :
  caption Sample.codec Sample.any_URL
          (Scenario.replies 200 (Utf8.bytes_dq "{'caption':'A cat.'}"))
          Sample.local (Scenario.caption_cat (Some false)) []
  = (Resolved {| caption_ := Plain (Sample.str "A cat.") |},
     [Scenario.post_caption_cat (Some false)]).
Proof.
  apply (@caption_returns_caption
           (Buffer * Z) Sample.codec Sample.any_URL
           (Scenario.replies 200 (Utf8.bytes_dq "{'caption':'A cat.'}"))
           Sample.local (Scenario.caption_cat (Some false)) Scenario.cat_png
           {| statusCode := 200;
              readable := Sample.ends [Utf8.bytes_dq "{'caption':'A cat.'}"] |}
           [(JS.lit "caption", Sample.str "A cat.")]
           [] []);
    reflexivity.
Defined.

Lemma null_response_is_a_TypeError_witness :
  detect Sample.codec Sample.any_URL
         (Scenario.replies 200 (Utf8.bytes "null"))
         Sample.local Scenario.detect_cat []
  = (Rejected (Native (ReadTypeError "objects" JNull)),
     [Scenario.post_detect_cat]).
Proof.
  apply (proj1 (proj2 (proj2
           (@null_response_is_a_TypeError
              (Buffer * Z) Sample.codec Sample.any_URL
              (Scenario.replies 200 (Utf8.bytes "null"))
              Sample.local [] [] [Scenario.post_detect_cat])))
           Scenario.detect_cat Scenario.cat_png);
    reflexivity.
Defined.

Lemma streaming_hides_http_errors_witness :
  caption Sample.codec Sample.any_URL
          (Scenario.replies 401 (Utf8.bytes_dq "{'error':'Unauthorized'}"))
          Sample.local (Scenario.caption_cat (Some true)) []
  = (Resolved {| caption_ :=
                   Streamed {| yielded := []; outcome := Completed |} |},
     [Scenario.post_caption_cat (Some true)])
  /\ query Sample.codec Sample.any_URL
           (Scenario.replies 401 (Utf8.bytes_dq "{'error':'Unauthorized'}"))
           Sample.local Scenario.question_streamed []
     = (Resolved {| answer :=
                      Streamed {| yielded := []; outcome := Completed |};
                    reasoning := None |},
        [Scenario.post_question_streamed]).
Proof.
  destruct (@streaming_hides_http_errors
              (Buffer * Z) Sample.codec Sample.any_URL
              (Scenario.replies 401 (Utf8.bytes_dq "{'error':'Unauthorized'}"))
              Sample.local
              {| statusCode := 401;
                 readable :=
                   Sample.ends [Utf8.bytes_dq "{'error':'Unauthorized'}"] |}
              [] [] eq_refl eq_refl) as [Hc Hq].
  split.
  - apply (Hc (Scenario.caption_cat (Some true)) Scenario.cat_png);
      reflexivity.
  - apply (Hq Scenario.question_streamed
              [(JS.lit "question", Sample.str "What is this?");
               (JS.lit "stream", JBool true);
               (JS.lit "reasoning", JBool false)]);
      reflexivity.
Defined.

(* ================================================================== *)
(** ** The client and its requests *)
(* ================================================================== *)

(** A client that was constructed has an endpoint, and has a key if its
    endpoint is the default one: whatever it sends to the default
    endpoint carries a key that is not empty. *)
Theorem constructed_client_has_a_key_for_the_cloud
  (config : MoondreamVLConfig) (self : vl) :
  constructor config = inr self ->
  endpoint self <> []
  /\ (endpoint self = DEFAULT_ENDPOINT ->
      apiKey self <> []
      /\ forall new_URL network path body stream req,
           In req (sent (snd (makeRequest new_URL network self path body
                                          stream [])))
           -> auth req <> []).
Proof.
  unfold constructor. intros H.
  destruct (JS.eqb (JS.or_default (config_apiKey config) []) []) eqn:Ek;
    destruct (JS.eqb (JS.or_default (config_endpoint config) DEFAULT_ENDPOINT)
                     DEFAULT_ENDPOINT) eqn:Ee;
    simpl in H; try discriminate H; injection H as <-; simpl.
  - split.
    + destruct (config_endpoint config) as [[|c e]|]; discriminate.
    + intros E. apply eqb_eq in E. congruence.
  - assert (JS.or_default (config_apiKey config) [] <> []) as Hk.
    { intros E. apply eqb_eq in E. congruence. }
    split.
    + destruct (config_endpoint config) as [[|c e]|]; discriminate.
    + intros _. split; [exact Hk|].
      intros new_URL network path body stream req Hin.
      rewrite makeRequest_sends_one_request in Hin. simpl in Hin.
      destruct (new_URL _); simpl in Hin; [tauto|].
      destruct Hin as [<-|[]]. exact Hk.
  - split.
    + destruct (config_endpoint config) as [[|c e]|]; discriminate.
    + intros E. apply eqb_eq in E. congruence.
Qed.

Lemma field_log (key : string) (response : JSValue) (log : list Event) :
  snd (field key response log) = log.
Proof. unfold field. destruct (get key response); reflexivity. Qed.

Lemma query_requestBody_sends_nothing (Image : Type) (jimp : Codec Image)
  (r : QueryRequest) (log : list Event) :
  sent (snd (query_requestBody jimp r log)) = sent log.
Proof.
  unfold query_requestBody.
  destruct (query_image r) as [image|]; [|reflexivity].
  pose proof (encodeImage_sends_nothing jimp image log) as H.
  cbv beta iota delta [await resolve].
  destruct (encodeImage jimp image log) as [[enc|m|] log']; exact H.
Qed.

Section OneRequest.

Variable Image : Type.
Variable jimp : Codec Image.
Variable new_URL : jsstring -> option Message.
Variable network : Network.
Variable self : vl.

Lemma makeRequest_at_most_one (path : string)
  (members : list (jsstring * JSValue)) (stream : bool)
  (before log : list Event) :
  sent log = sent before ->
  at_most_one self path before
    (snd (makeRequest new_URL network self (JS.lit path) (JObject members)
                      stream log)).
Proof.
  intros H. unfold at_most_one.
  rewrite makeRequest_sends_one_request, H.
  destruct (new_URL _); [left; apply app_nil_r | right; eexists; reflexivity].
Qed.

(** No dispatcher sends more than one request, whatever happens: none
    when the image cannot be encoded or the URL is not well formed, one
    otherwise, to the endpoint of the client followed by the path of
    the task, with the key of the client. There is no second attempt. *)
Theorem dispatchers_send_one_request_at_most (log : list Event) :
  (forall r, at_most_one self "/caption" log
               (snd (caption jimp new_URL network self r log)))
  /\ (forall r, at_most_one self "/query" log
                  (snd (query jimp new_URL network self r log)))
  /\ (forall r, at_most_one self "/detect" log
                  (snd (detect jimp new_URL network self r log)))
  /\ (forall r, at_most_one self "/point" log
                  (snd (point jimp new_URL network self r log))).
Proof.
  repeat split; intros r.
  - unfold caption, await at 1.
    pose proof (encodeImage_sends_nothing jimp (caption_image r) log) as He.
    destruct (encodeImage jimp (caption_image r) log) as [[enc|m|] log1];
      simpl in He; try (left; exact He).
    destruct (is_set (caption_stream r)); unfold await at 1.
    + match goal with
      | |- context [makeRequest _ _ _ (JS.lit ?p) (JObject ?b) ?s log1] =>
          pose proof (makeRequest_at_most_one p b s log log1 He) as Hm;
          destruct (makeRequest new_URL network self (JS.lit p) (JObject b)
                                s log1) as [[res|m|] log2]
      end; exact Hm.
    + match goal with
      | |- context [makeRequest _ _ _ (JS.lit ?p) (JObject ?b) ?s log1] =>
          pose proof (makeRequest_at_most_one p b s log log1 He) as Hm;
          destruct (makeRequest new_URL network self (JS.lit p) (JObject b)
                                s log1) as [[res|m|] log2]
      end; try exact Hm.
      unfold await. pose proof (field_log "caption" res log2) as Hf.
      destruct (field "caption" res log2) as [[v|m|] log3];
        simpl in Hf; subst log3; exact Hm.
  - unfold query, await at 1.
    pose proof (query_requestBody_sends_nothing jimp r log) as He.
    destruct (query_requestBody jimp r log) as [[requestBody|m|] log1];
      simpl in He; try (left; exact He).
    destruct (is_set (query_stream r)); unfold await at 1.
    + pose proof (makeRequest_at_most_one "/query" requestBody true log log1 He)
        as Hm.
      destruct (makeRequest new_URL network self (JS.lit "/query")
                            (JObject requestBody) true log1)
        as [[res|m|] log2]; exact Hm.
    + pose proof (makeRequest_at_most_one "/query" requestBody false log log1 He)
        as Hm.
      destruct (makeRequest new_URL network self (JS.lit "/query")
                            (JObject requestBody) false log1)
        as [[res|m|] log2]; try exact Hm.
      unfold await at 1. pose proof (field_log "answer" res log2) as Hf.
      destruct (field "answer" res log2) as [[a|m|] log3];
        simpl in Hf; subst log3; try exact Hm.
      unfold await. pose proof (field_log "reasoning" res log2) as Hf.
      destruct (field "reasoning" res log2) as [[v|m|] log3];
        simpl in Hf; subst log3; try exact Hm.
      destruct (truthy v); exact Hm.
  - unfold detect, await at 1.
    pose proof (encodeImage_sends_nothing jimp (detect_image r) log) as He.
    destruct (encodeImage jimp (detect_image r) log) as [[enc|m|] log1];
      simpl in He; try (left; exact He).
    unfold await at 1.
    match goal with
    | |- context [makeRequest _ _ _ (JS.lit ?p) (JObject ?b) ?s log1] =>
        pose proof (makeRequest_at_most_one p b s log log1 He) as Hm;
        destruct (makeRequest new_URL network self (JS.lit p) (JObject b)
                              s log1) as [[res|m|] log2]
    end; try exact Hm.
    unfold await. pose proof (field_log "objects" res log2) as Hf.
    destruct (field "objects" res log2) as [[v|m|] log3];
      simpl in Hf; subst log3; exact Hm.
  - unfold point, await at 1.
    pose proof (encodeImage_sends_nothing jimp (point_image r) log) as He.
    destruct (encodeImage jimp (point_image r) log) as [[enc|m|] log1];
      simpl in He; try (left; exact He).
    unfold await at 1.
    match goal with
    | |- context [makeRequest _ _ _ (JS.lit ?p) (JObject ?b) ?s log1] =>
        pose proof (makeRequest_at_most_one p b s log log1 He) as Hm;
        destruct (makeRequest new_URL network self (JS.lit p) (JObject b)
                              s log1) as [[res|m|] log2]
    end; try exact Hm.
    unfold await. pose proof (field_log "points" res log2) as Hf.
    destruct (field "points" res log2) as [[v|m|] log3];
      simpl in Hf; subst log3; exact Hm.
Qed.

End OneRequest.

Lemma constructed_client_has_a_key_for_the_cloud_witness :
  endpoint {| apiKey := JS.lit "secret"; endpoint := DEFAULT_ENDPOINT |} <> []
  /\ apiKey {| apiKey := JS.lit "secret"; endpoint := DEFAULT_ENDPOINT |} <> [].
Proof.
  destruct (@constructed_client_has_a_key_for_the_cloud
              {| config_apiKey := Some (JS.lit "secret");
                 config_endpoint := None |}
              {| apiKey := JS.lit "secret"; endpoint := DEFAULT_ENDPOINT |}
              eq_refl) as [He Hk].
  split; [exact He | exact (proj1 (Hk eq_refl))].
Defined.

(* ================================================================== *)
(** ** More on the image normaliser *)
(* ================================================================== *)


(** Induction on a list three elements at a time. *)
Lemma list_ind3 (A : Type) (P : list A -> Prop) :
  P [] ->
  (forall a, P [a]) ->
  (forall a b, P [a; b]) ->
  (forall a b c rest, P rest -> P (a :: b :: c :: rest)) ->
  forall l, P l.
Proof.
  intros H0 H1 H2 H3. fix IH 1.
  intros [|a [|b [|c rest]]]; [exact H0 | apply H1 | apply H2 |].
  apply H3, IH.
Qed.

Lemma digit_base64_unit (n : N) : base64_unit (Base64.digit n) = true.
Proof.
  unfold Base64.digit, base64_unit.
  destruct (N.ltb_spec n 26) as [H|H].
  { assert (N.leb 65 (65 + n) = true) as -> by (apply N.leb_le; lia).
    assert (N.leb (65 + n) 90 = true) as -> by (apply N.leb_le; lia).
    reflexivity. }
  destruct (N.ltb_spec n 52) as [H'|H'].
  { assert (N.leb 97 (97 + (n - 26)) = true) as -> by (apply N.leb_le; lia).
    assert (N.leb (97 + (n - 26)) 122 = true) as -> by (apply N.leb_le; lia).
    simpl. now rewrite orb_true_r. }
  destruct (N.ltb_spec n 62) as [H''|H''].
  { assert (N.leb 48 (48 + (n - 52)) = true) as -> by (apply N.leb_le; lia).
    assert (N.leb (48 + (n - 52)) 57 = true) as -> by (apply N.leb_le; lia).
    simpl. now rewrite orb_true_r. }
  destruct (N.eqb n 62); reflexivity.
Qed.

Lemma encode_bytes_units (bs : list N) :
  forallb base64_unit (Base64.encode_bytes bs) = true.
Proof.
  induction bs as [|a|a b|a b c rest IH] using list_ind3;
    cbn [Base64.encode_bytes forallb]; unfold Base64.sextet;
    rewrite ?digit_base64_unit, ?IH; reflexivity.
Qed.

Lemma encode_bytes_length (bs : list N) :
  List.length (Base64.encode_bytes bs) = (4 * ((List.length bs + 2) / 3))%nat.
Proof.
  induction bs as [|a|a b|a b c rest IH] using list_ind3;
    try reflexivity.
  cbn [Base64.encode_bytes List.length]. rewrite IH.
  replace (S (S (S (List.length rest))) + 2)%nat
    with (List.length rest + 2 + 1 * 3)%nat by lia.
  rewrite Nat.div_add by discriminate. lia.
Qed.

(** What the conversion of a raw image resolves with is a data URI: the
    text [data:image/jpeg;base64,] followed by code units of the base64
    alphabet only, a multiple of four of them. *)
Theorem encodeImage_gives_a_data_URI (Image : Type) (jimp : Codec Image)
  (buffer : Buffer) (e : Base64EncodedImage) (log log' : list Event) :
  encodeImage jimp (Raw buffer) log = (Resolved e, log') ->
  JS.startsWith (imageUrl e) (JS.lit "data:image/jpeg;base64,") = true
  /\ forallb base64_unit (JS.slice 23 (imageUrl e)) = true
  /\ (List.length (JS.slice 23 (imageUrl e)) mod 4 = 0)%nat.
Proof.
  intros H.
  assert (exists jpeg, imageUrl e
                       = JS.lit "data:image/jpeg;base64," ++ Base64.encode jpeg)
    as [jpeg ->].
  { revert H. unfold encodeImage.
    cbv beta iota delta [await emit call resolve reject try_catch].
    destruct (jimp_read jimp buffer) as [m|image]; cbv beta iota;
      [discriminate|].
    destruct (missing (bitmap_width jimp image)
              || missing (bitmap_height jimp image)); cbv beta iota;
      [discriminate|].
    destruct (jimp_quality jimp 95 image) as [m|image']; cbv beta iota;
      [discriminate|].
    destruct (jimp_getBuffer jimp "image/jpeg" image') as [m|jpeg];
      cbv beta iota; [discriminate|].
    intros E. injection E as <- _. exists jpeg. reflexivity. }
  split; [apply startsWith_app|].
  change (JS.slice 23 (JS.lit "data:image/jpeg;base64," ++ Base64.encode jpeg))
    with (Base64.encode jpeg).
  unfold Base64.encode. split; [apply encode_bytes_units|].
  rewrite encode_bytes_length, Nat.mul_comm. apply Nat.Div0.mod_mul.
Qed.

Lemma encodeImage_gives_a_data_URI_witness :
  JS.startsWith (JS.lit "data:image/jpeg;base64,X4lQ")
                (JS.lit "data:image/jpeg;base64,") = true
  /\ forallb base64_unit (JS.slice 23 (JS.lit "data:image/jpeg;base64,X4lQ"))
     = true
  /\ (List.length (JS.slice 23 (JS.lit "data:image/jpeg;base64,X4lQ")) mod 4
      = 0)%nat.
Proof.
  apply (@encodeImage_gives_a_data_URI
           (Buffer * Z) Sample.codec [x89; x50]
           {| imageUrl := JS.lit "data:image/jpeg;base64,X4lQ" |}
           [] (codec_calls [x89; x50])).
  reflexivity.
Defined.

(* ================================================================== *)
(** ** The request body of [query] *)
(* ================================================================== *)

(** The body [query] sends has the question and the [stream] of the
    request; an [image_url] exactly when the request has an image; the
    [reasoning] of the request whenever it is given, [false] included;
    and the [variant] only when it is given and not empty. *)
Theorem query_requestBody_members (Image : Type) (jimp : Codec Image)
  (r : QueryRequest) (requestBody : list (jsstring * JSValue))
  (log log1 : list Event) :
  query_requestBody jimp r log = (Resolved requestBody, log1) ->
  member (JS.lit "question") requestBody = Some (JString (query_question r))
  /\ member (JS.lit "stream") requestBody = Some (flag (query_stream r))
  /\ (member (JS.lit "image_url") requestBody = None <-> query_image r = None)
  /\ member (JS.lit "reasoning") requestBody
     = option_map JBool (query_reasoning r)
  /\ member (JS.lit "variant") requestBody
     = match query_variant r with
       | Some (c :: v) => Some (JString (c :: v))
       | _ => None
       end.
Proof.
  unfold query_requestBody. cbv beta iota delta [await resolve].
  destruct (query_image r) as [image|].
  - destruct (encodeImage jimp image log) as [[enc|m|] log']; try discriminate.
    intros H. injection H as <- _.
    destruct (query_reasoning r) as [b|];
      destruct (query_variant r) as [[|c v]|];
      repeat split; try reflexivity; try discriminate.
  - intros H. injection H as <- _.
    destruct (query_reasoning r) as [b|];
      destruct (query_variant r) as [[|c v]|];
      repeat split; reflexivity.
Qed.

Lemma query_requestBody_members_witness :
  member (JS.lit "reasoning")
         [(JS.lit "question", Sample.str "What is this?");
          (JS.lit "stream", JBool true);
          (JS.lit "reasoning", JBool false)]
  = Some (JBool false)
  /\ member (JS.lit "variant")
            [(JS.lit "question", Sample.str "What is this?");
             (JS.lit "stream", JBool true);
             (JS.lit "reasoning", JBool false)]
     = None.
Proof.
  destruct (@query_requestBody_members
              (Buffer * Z) Sample.codec Scenario.question_streamed
              [(JS.lit "question", Sample.str "What is this?");
               (JS.lit "stream", JBool true);
               (JS.lit "reasoning", JBool false)]
              [] [] eq_refl) as [_ [_ [_ [Hr Hv]]]].
  split; [exact Hr | exact Hv].
Defined.

(* ================================================================== *)
(** ** Lines that end with a carriage return *)
(* ================================================================== *)

Lemma scan_CR (s : jsstring) : forall (st : JSON.Scan) (ts : list JSON.Token),
  JSON.scan st s = Some ts -> JSON.scan st (s ++ [CR]) = Some ts.
Proof.
  induction s as [|c s IH]; intros st ts H.
  - simpl in H. destruct st; try discriminate.
    + injection H as <-. reflexivity.
    + destruct (JSON.atom_of (rev rev_word)) as [v|] eqn:E; [|discriminate].
      injection H as <-. cbn [app JSON.scan]. unfold JSON.scan_step.
      change (JSON.is_word CR) with false. cbv iota. rewrite E.
      reflexivity.
  - simpl in *. destruct (JSON.scan_step st c) as [[ts0 st']|]; [|discriminate].
    destruct (JSON.scan st' s) as [ts'|] eqn:E; [|discriminate].
    now rewrite (IH st' ts' E).
Qed.

Lemma parse_CR (s : jsstring) (v : JSValue) :
  JSON.parse s = inr v -> JSON.parse (s ++ [CR]) = inr v.
Proof.
  unfold JSON.parse. destruct (JSON.scan JSON.Between s) as [ts|] eqn:E;
    [|discriminate].
  rewrite (scan_CR _ _ E).
  destruct (JSON.parse_tokens [] (JSON.WantValue false) ts);
    [trivial | discriminate].
Qed.

Lemma startsWith_snoc_true (p l : jsstring) (x : N) :
  JS.startsWith l p = true ->
  JS.startsWith (l ++ [x]) p = true
  /\ skipn (List.length p) (l ++ [x]) = skipn (List.length p) l ++ [x].
Proof.
  revert l; induction p as [|d p IH]; intros l H; simpl in *.
  - split; reflexivity.
  - destruct l as [|c l]; [discriminate|]. simpl.
    apply andb_true_iff in H. destruct H as [-> H]. apply (IH l H).
Qed.

Lemma startsWith_snoc_false (p l : jsstring) (x : N) :
  ~ In x p -> JS.startsWith l p = false -> JS.startsWith (l ++ [x]) p = false.
Proof.
  revert l; induction p as [|d p IH]; intros l Hx H; simpl in *;
    [discriminate|].
  destruct l as [|c l]; simpl.
  - destruct (N.eqb_spec x d) as [->|_]; [tauto | reflexivity].
  - destruct (N.eqb c d); [|reflexivity]. simpl in *. apply IH; tauto.
Qed.

Lemma on_line_CR (l : jsstring) :
  decodable l = true -> on_line (l ++ [CR]) = on_line l.
Proof.
  unfold decodable, on_line.
  destruct (JS.startsWith l PREFIX) eqn:Hp.
  - destruct (startsWith_snoc_true PREFIX l CR Hp) as [-> Hs].
    unfold JS.slice. change 6%nat with (List.length PREFIX). rewrite Hs.
    destruct (JSON.parse (skipn (List.length PREFIX) l)) as [c|data] eqn:Hj;
      [discriminate|].
    intros _. now rewrite (parse_CR _ Hj).
  - intros _. rewrite startsWith_snoc_false; trivial.
    unfold PREFIX, CR. simpl. intuition discriminate.
Qed.

Lemma for_lines_CR (ls : list jsstring) :
  forallb decodable ls = true ->
  for_lines on_line (map (fun l => l ++ [CR]) ls) = for_lines on_line ls.
Proof.
  induction ls as [|l ls IH]; simpl; [reflexivity|].
  intros H. apply andb_true_iff in H. destruct H as [Hl Hls].
  now rewrite (on_line_CR _ Hl), (IH Hls).
Qed.

(** Line endings may be CRLF: a stream whose lines, all terminated, end
    with a carriage return before the line feed is decoded as the
    stream without the carriage returns is, when every line that starts
    with [data: ] holds JSON. *)
Theorem carriage_returns_are_harmless (plain returns : Readable)
  (lines : list jsstring) :
  JS.split JS.LF (received plain) = lines ++ [[]] ->
  JS.split JS.LF (received returns)
  = map (fun l => l ++ [CR]) lines ++ [[]] ->
  failure returns = failure plain ->
  forallb decodable lines = true ->
  streamResponse returns = streamResponse plain.
Proof.
  intros Hp Hr Hf Hd.
  rewrite !streamResponse_decode_lines, Hp, Hr, Hf. unfold decode_lines.
  rewrite !removelast_last, !last_last, (for_lines_CR _ Hd). reflexivity.
Qed.

Lemma carriage_returns_are_harmless_witness :
  streamResponse Scenario.with_CRLF = streamResponse Scenario.with_LF.
Proof.
  apply (@carriage_returns_are_harmless
           Scenario.with_LF Scenario.with_CRLF
           [JS.dq "data: {'chunk':'a'}"; JS.lit ": ping";
            JS.dq "data: {'chunk':'b','completed':true}"]);
    reflexivity.
Defined.

(* ================================================================== *)
(** ** The end of the text *)
(* ================================================================== *)

Lemma split_snoc_separator (sep : N) (l : jsstring) :
  ~ In sep l -> JS.split sep (l ++ [sep]) = [l; []].
Proof.
  induction l as [|c l IH]; simpl; intros H.
  - now rewrite N.eqb_refl.
  - destruct (N.eqb_spec c sep) as [->|_]; [tauto|].
    rewrite IH by tauto. reflexivity.
Qed.

(** The line feed after the last line is optional: on a stream that
    ends without failing, the text and the text followed by one more
    line feed are decoded alike. *)
Theorem final_line_feed_is_optional (bare terminated : Readable) :
  received terminated = received bare ++ [JS.LF] ->
  failure bare = None ->
  failure terminated = None ->
  streamResponse terminated = streamResponse bare.
Proof.
  intros Ht Hb Hf.
  rewrite !streamResponse_decode_lines, Ht, Hb, Hf, split_app.
  rewrite (@split_snoc_separator JS.LF _
             (last_split_without JS.LF (received bare))).
  set (segments := JS.split JS.LF (received bare)).
  unfold decode_lines.
  rewrite removelast_app, last_app_not_nil by discriminate.
  cbn [removelast last]. rewrite for_lines_app, for_lines_one.
  rewrite (on_residual_line_on_line (last segments [])).
  destruct (for_lines on_line (removelast segments)) as [out [| |m]];
    try reflexivity.
  destruct (on_line (last segments [])) as [out' [| |m]]; try reflexivity.
  unfold on_residual_line. simpl. now rewrite app_nil_r.
Qed.

Lemma final_line_feed_is_optional_witness :
  streamResponse (Sample.ends [Sample.line "data: {'chunk':'a'}"
                               ++ Sample.line "data: {'chunk':'b'}"])
  = streamResponse Sample.unterminated.
Proof.
  apply (@final_line_feed_is_optional
           Sample.unterminated
           (Sample.ends [Sample.line "data: {'chunk':'a'}"
                         ++ Sample.line "data: {'chunk':'b'}"]));
    reflexivity.
Defined.

(* ================================================================== *)
(** ** The body of a response that is not streamed *)
(* ================================================================== *)

(** A body that is not streamed is read whole before it is parsed: two
    responses of the same status that bring the same bytes, each cut
    into chunks on character boundaries, settle the request alike. *)
Theorem buffered_body_is_read_whole
  (new_URL : jsstring -> option Message) (network network' : Network)
  (self : vl) (path : jsstring) (body : JSValue)
  (res res' : IncomingMessage) (log : list Event) :
  let request :=
    {| url := endpoint self ++ path; auth := apiKey self; payload := body |} in
  network request = inr res ->
  network' request = inr res' ->
  statusCode res = statusCode res' ->
  List.concat (chunks (readable res)) = List.concat (chunks (readable res')) ->
  Forall Utf8.ends_on_boundary (chunks (readable res)) ->
  Forall Utf8.ends_on_boundary (chunks (readable res')) ->
  failure (readable res) = None ->
  failure (readable res') = None ->
  makeRequest new_URL network self path body false log
  = makeRequest new_URL network' self path body false log.
Proof.
  intros request Hn Hn' Hs Hb Hc Hc' Hf Hf'.
  destruct (new_URL (endpoint self ++ path)) as [m|] eqn:Hu.
  - rewrite (@makeRequest_invalid_URL new_URL network self path body
               false m log Hu).
    now rewrite (@makeRequest_invalid_URL new_URL network' self path body
                   false m log Hu).
  - rewrite (@makeRequest_buffered new_URL network self path body
               res log Hu Hn Hf).
    rewrite (@makeRequest_buffered new_URL network' self path body
               res' log Hu Hn' Hf').
    unfold received.
    rewrite (proj1 (received_on_boundaries Hc)).
    rewrite (proj1 (received_on_boundaries Hc')).
    now rewrite Hs, Hb.
Qed.

Lemma buffered_body_is_read_whole_witness :
  makeRequest Sample.any_URL Scenario.objects_in_pieces Sample.local
              (JS.lit "/detect") (JObject []) false []
  = makeRequest Sample.any_URL Scenario.objects_whole Sample.local
                (JS.lit "/detect") (JObject []) false [].
Proof.
  apply (@buffered_body_is_read_whole
           Sample.any_URL Scenario.objects_in_pieces Scenario.objects_whole
           Sample.local (JS.lit "/detect") (JObject [])
           {| statusCode := 200;
              readable := Sample.ends [Utf8.bytes_dq "{'objects':[1";
                                       Utf8.bytes_dq ".5]}"] |}
           {| statusCode := 200;
              readable := Sample.ends [Utf8.bytes_dq "{'objects':[1.5]}"] |}
           []);
    try reflexivity; repeat constructor.
Defined.
